(** * Audit pipeline of [src/frontend/lib/audit.ts]: a shallow embedding

    Strings are modelled as Rocq [string]s (byte sequences; the source's
    non-ASCII literals appear in their UTF-8 encoding).  JavaScript line
    terminators are modelled by ["\n"] and ["\r"].  A thrown exception is
    modelled by [None] (pure helpers) or by the [Err] branch of [Result]. *)

From Stdlib Require Import String Ascii List Bool ZArith Lia.
From Stdlib Require Import Numbers.DecimalString.
Import ListNotations.
Open Scope list_scope.
Open Scope string_scope.

(* ------------------------------------------------------------------ *)
(** ** JavaScript string helpers *)

(** [String.prototype.includes]. *)
Fixpoint includes (s sub : string) : bool :=
  if prefix sub s then true
  else match s with
       | EmptyString => false
       | String _ r => includes r sub
       end.

(** [String.prototype.toLowerCase], on ASCII letters. *)
Definition lower_ascii (c : ascii) : ascii :=
  let n := nat_of_ascii c in
  if (65 <=? n)%nat && (n <=? 90)%nat then ascii_of_nat (n + 32) else c.

Fixpoint toLowerCase (s : string) : string :=
  match s with
  | EmptyString => EmptyString
  | String c r => String (lower_ascii c) (toLowerCase r)
  end.

(** [Array.prototype.join]. *)
Fixpoint join (sep : string) (xs : list string) : string :=
  match xs with
  | [] => ""
  | [x] => x
  | x :: r => x ++ sep ++ join sep r
  end.

(** Template-literal rendering of an integral [number]. *)
Definition Z_to_string (z : Z) : string :=
  NilEmpty.string_of_int (Z.to_int z).

(** JavaScript regex line terminators (["\n"], ["\r"]). *)
Definition is_term (c : ascii) : bool :=
  (c =? "010"%char)%char || (c =? "013"%char)%char.

(** JavaScript [\s] on ASCII: tab, LF, VT, FF, CR and space. *)
Definition is_ws (c : ascii) : bool :=
  let n := nat_of_ascii c in ((9 <=? n)%nat && (n <=? 13)%nat) || (n =? 32)%nat.

(** JavaScript [\w]: [A-Za-z0-9_]. *)
Definition is_word (c : ascii) : bool :=
  let n := nat_of_ascii c in
  ((48 <=? n)%nat && (n <=? 57)%nat) || ((65 <=? n)%nat && (n <=? 90)%nat)
  || ((97 <=? n)%nat && (n <=? 122)%nat) || (n =? 95)%nat.

(** The lines of a string, as seen by a multiline regex: the pieces
    between line terminators (so a string without terminators is one line). *)
Fixpoint split_lines (s : string) : list string :=
  match s with
  | EmptyString => [""]
  | String c r =>
      if is_term c then "" :: split_lines r
      else match split_lines r with
           | [] => [String c ""]
           | h :: t => String c h :: t
           end
  end.

(* ------------------------------------------------------------------ *)
(** ** Data model (the [Location], [SWCMeta] and normalized issue types) *)

(** [type Location = { file: string; line: number | null; element: string }] *)
Record Location := mkLocation {
  file : string;
  line : option Z;
  element : string
}.

(** The result of [deriveFacts]. *)
Record Facts := mkFacts {
  writesAfterCall : bool;
  mentionsDelegatecall : bool;
  mentionsLowLevelCall : bool;
  exactStylePhrase : bool;
  mentionsZeroCheck : bool
}.

(** [type SWCMeta = { id?: string; title; remediation; references }] *)
Record SWCMeta := mkSWCMeta {
  swc_id : option string;
  swc_title : string;
  swc_remediation : string;
  swc_references : list string
}.

(** [NormalizedIssue = ReturnType<typeof normalizeIssue>]. *)
Record NormalizedIssue := mkIssue {
  check : string;
  title : string;
  impact : string;
  confidence : string;
  description : string;
  locations : list Location;
  facts : Facts;
  swc : option SWCMeta
}.

(** [{ ...it, locations: locs }] *)
Definition with_locations (it : NormalizedIssue) (locs : list Location)
  : NormalizedIssue :=
  mkIssue (check it) (title it) (impact it) (confidence it) (description it)
          locs (facts it) (swc it).

(* ------------------------------------------------------------------ *)
(** ** Location Deduplicator: [uniqueLocations] *)

(** The [Set] key: [`${l.file}:${l.line ?? ""}:${l.element}`]. *)
Definition loc_key (l : Location) : string :=
  file l ++ ":" ++ match line l with Some n => Z_to_string n | None => "" end
  ++ ":" ++ element l.

(** [locs.filter] with the [seen] set threaded through. *)
Fixpoint uniqueLocations_from (seen : list string) (locs : list Location)
  : list Location :=
  match locs with
  | [] => []
  | l :: r =>
      let k := loc_key l in
      if existsb (String.eqb k) seen then uniqueLocations_from seen r
      else l :: uniqueLocations_from (k :: seen) r
  end.

Definition uniqueLocations (locs : list Location) : list Location :=
  uniqueLocations_from [] locs.

(* ------------------------------------------------------------------ *)
(** ** Grouper: [groupByCheckAndElement] *)

(** [it.locations.find((l) => l.element)?.element ?? ""]: the element of the
    first location whose element is truthy (non-empty). *)
Definition first_element (locs : list Location) : string :=
  match find (fun l => negb (String.eqb (element l) "")) locs with
  | Some l => element l
  | None => ""
  end.

Definition group_key (it : NormalizedIssue) : string :=
  check it ++ "@@" ++ first_element (locations it).

(** A JavaScript [Map<string, NormalizedIssue>] with its insertion order. *)
Definition IssueMap := list (string * NormalizedIssue).

Fixpoint map_get (k : string) (m : IssueMap) : option NormalizedIssue :=
  match m with
  | [] => None
  | (k', v) :: r => if String.eqb k k' then Some v else map_get k r
  end.

(** Overwriting the value of a key that is present keeps its position. *)
Fixpoint map_replace (k : string) (v : NormalizedIssue) (m : IssueMap) : IssueMap :=
  match m with
  | [] => []
  | (k', v') :: r =>
      if String.eqb k k' then (k', v) :: r else (k', v') :: map_replace k v r
  end.

(** One iteration of the [for (const it of items)] loop over the state
    [(grouped, passthrough)].  [existing.locations = ...] mutates the clone
    stored in the map, so it is a [map_replace] at the same key. *)
Definition group_step (st : IssueMap * list NormalizedIssue) (it : NormalizedIssue)
  : IssueMap * list NormalizedIssue :=
  let (grouped, passthrough) := st in
  if String.eqb (check it) "missing-zero-check" then
    let key := group_key it in
    match map_get key grouped with
    | Some existing =>
        (map_replace key
           (with_locations existing
              (uniqueLocations (locations existing ++ locations it)%list)) grouped,
         passthrough)
    | None =>
        ((grouped ++ [(key, with_locations it (uniqueLocations (locations it)))])%list,
         passthrough)
    end
  else (grouped, (passthrough ++ [it])%list).

(** [return [...passthrough, ...grouped.values()]] *)
Definition groupByCheckAndElement (items : list NormalizedIssue)
  : list NormalizedIssue :=
  let (grouped, passthrough) := fold_left group_step items ([], []) in
  (passthrough ++ map snd grouped)%list.

(* ------------------------------------------------------------------ *)
(** ** Fact Deriver and Knowledge Enricher *)

(** [deriveFacts(desc)] *)
Definition deriveFacts (desc : option string) : Facts :=
  let d := toLowerCase (match desc with Some s => s | None => "" end) in
  mkFacts (includes d "state variables written after the call")
          (includes d "delegatecall")
          (includes d " call(" || includes d ".call(")
          (includes d "not in mixedcase")
          (includes d "lacks a zero-check" || includes d "zero-check").

(** [friendlyTitle(check)] *)
Definition friendlyTitle (c : string) : string :=
  if String.eqb c "controlled-delegatecall" then "Controlled Delegatecall"
  else if String.eqb c "reentrancy-no-eth" then "Reentrancy (no ETH)"
  else if String.eqb c "reentrancy-benign" then "Reentrancy (benign)"
  else if String.eqb c "missing-zero-check" then "Missing zero-check (address)"
  else if String.eqb c "low-level-calls" then "Low-level calls"
  else if String.eqb c "naming-convention" then "Naming convention"
  else c.

Section Enrichment.

(** The registry [swcData] read by [getSWCEntry]; an external JSON package. *)
Variable SWCEntry : Type.
Variable getSWCEntry : string -> option SWCEntry.

(** [enrichWithSWCByDescription(description)] *)
Definition enrichWithSWCByDescription (description : option string)
  : option SWCEntry :=
  match description with
  | None | Some EmptyString => None
  | Some d =>
      let lower := toLowerCase d in
      if includes lower "integer overflow" || includes lower "underflow"
      then getSWCEntry "SWC-101"
      else if includes lower "tx.origin" then getSWCEntry "SWC-115"
      else None
  end.

(** [enrichWithSWC({ check, description })] *)
Definition enrichWithSWC (c : string) (description : option string)
  : option SWCEntry :=
  if String.eqb c "controlled-delegatecall" then getSWCEntry "SWC-112"
  else if String.eqb c "reentrancy-no-eth" || String.eqb c "reentrancy-benign"
  then getSWCEntry "SWC-107"
  else if String.eqb c "low-level-calls" then getSWCEntry "SWC-104"
  else if String.eqb c "missing-zero-check" then None
  else enrichWithSWCByDescription description.

End Enrichment.

(** The check identifiers with an explicit [case] in [enrichWithSWC]. *)
Definition swc_switch_checks : list string :=
  ["controlled-delegatecall"; "reentrancy-no-eth"; "reentrancy-benign";
   "low-level-calls"; "missing-zero-check"].

(** [normalizeIssue(issue)]; [facts] and [swc] are passed explicitly where
    the source may omit them ([?? deriveFacts(...)], [?? null]). *)
Definition normalizeIssue (c imp conf : string) (desc : option string)
  (locs : list Location) (fs : option Facts) (sw : option SWCMeta)
  : NormalizedIssue :=
  mkIssue c (friendlyTitle c) imp conf
          (match desc with Some d => d | None => "" end) locs
          (match fs with Some f => f | None => deriveFacts desc end) sw.

(* ------------------------------------------------------------------ *)
(** ** Deterministic Renderer: [renderMarkdownDeterministic] *)

(** [formatLocations(locs)] *)
Fixpoint formatLocations_from (seen : list string) (locs : list Location)
  : list string :=
  match locs with
  | [] => []
  | l :: r =>
      let key := loc_key l in
      if existsb (String.eqb key) seen then formatLocations_from seen r
      else
        let linePart := match line l with
                        | Some n => ":" ++ Z_to_string n
                        | None => "" end in
        let elemPart := if String.eqb (element l) "" then ""
                        else " (element: " ++ element l ++ ")" in
        ("  - " ++ file l ++ linePart ++ elemPart)
          :: formatLocations_from (key :: seen) r
  end.

Definition formatLocations (locs : list Location) : list string :=
  formatLocations_from [] locs.

(** The regex [/\w+\s*\(.*\)/] ([.] excludes line terminators):
    [close_on_line] is [.*\)], [ws_then_paren] is [\s*\(.*\)] and
    [word_plus] is [\w+\s*\(.*\)] anchored at the current position. *)
Fixpoint close_on_line (s : string) : bool :=
  match s with
  | EmptyString => false
  | String c r =>
      if (c =? ")"%char)%char then true
      else if is_term c then false else close_on_line r
  end.

Fixpoint ws_then_paren (s : string) : bool :=
  match s with
  | EmptyString => false
  | String c r =>
      if (c =? "("%char)%char then close_on_line r
      else if is_ws c then ws_then_paren r else false
  end.

Fixpoint word_plus (s : string) : bool :=
  match s with
  | EmptyString => false
  | String c r => is_word c && (word_plus r || ws_then_paren r)
  end.

(** [RegExp.prototype.test]: a match at some position. *)
Fixpoint functionish_test (s : string) : bool :=
  word_plus s ||
  match s with
  | EmptyString => false
  | String _ r => functionish_test r
  end.

(** The [switch (it.check)] giving the risk and remediation sentences. *)
Definition risk_and_remediation (it : NormalizedIssue) : string * string :=
  let c := check it in
  if String.eqb c "controlled-delegatecall" then
    ("Uses `delegatecall` to an input-controlled target, executing code in the caller’s context.",
     "Avoid `delegatecall` to untrusted targets; restrict to immutable/whitelisted addresses or replace with interface calls.")
  else if String.eqb c "reentrancy-no-eth" then
    ("External call occurs before a state write, enabling reentrancy before effects are applied. A state variable is written after an external call.",
     "Apply Checks–Effects–Interactions and/or a reentrancy guard; validate/limit the callee.")
  else if String.eqb c "reentrancy-benign" then
    ("External call followed by a state write (marked benign by Slither for this context). A state variable is written after an external call.",
     "Prefer CEI or a guard if the function can be externally triggered.")
  else if String.eqb c "missing-zero-check" then
    ("Target address parameter lacks a `!= address(0)` validation.",
     "Validate non-zero addresses and check `success` for low-level calls.")
  else if String.eqb c "low-level-calls" then
    ("Uses low-level calls (`call`/`delegatecall`) that bypass type safety and can fail silently.",
     "Prefer typed interface calls; if using low-level calls, check `success` and handle returned data.")
  else if String.eqb c "naming-convention" then
    ("Variable is not in mixedCase.",
     "Rename variables to mixedCase (e.g., `sVariable`, `sOtherVar`).")
  else
    ((if String.eqb (description it) "" then "See description." else description it),
     "Follow best practices for this category.").

Definition functionish_checks : list string :=
  ["controlled-delegatecall"; "reentrancy-no-eth"; "reentrancy-benign";
   "low-level-calls"].

(** The optional SWC block ([swcLines]). *)
Definition swcLines (s : option SWCMeta) : string :=
  match s with
  | None => ""
  | Some m =>
      join "
" (filter (fun x => negb (String.eqb x ""))
        [ "- **SWC:** " ++
            match swc_id m with
            | Some i => if String.eqb i "" then "" else i ++ ": "
            | None => "" end ++ swc_title m;
          (if String.eqb (swc_remediation m) "" then ""
           else "- **SWC Remediation:** " ++ swc_remediation m);
          match swc_references m with
          | [] => ""
          | refs => "- **References:**
" ++ join "
" (map (fun r => "  - " ++ r) refs)
          end ])
  end.

(** [renderOne(it)] *)
Definition renderOne (it : NormalizedIssue) : string :=
  let locs := locations it in
  let '(risk, remediation) := risk_and_remediation it in
  let elem := match find (fun l => negb (String.eqb (element l) "")) locs with
              | Some l => element l
              | None => "N/A" end in
  let isFunctionish :=
    functionish_test elem || existsb (String.eqb (check it)) functionish_checks in
  let label := if isFunctionish then "Function" else "Element" in
  let ln := match find (fun l => match line l with Some _ => true | None => false end) locs with
            | Some l => line l
            | None => None end in
  let headerLines := ["- Contract: " ++ match locs with
                                        | main :: _ => file main
                                        | [] => "(unknown file)" end] in
  let locList := formatLocations locs in
  let headerLines :=
    if (1 <? length locList)%nat then (headerLines ++ ["- Locations:"] ++ locList)%list
    else app headerLines
         ["- " ++ label ++ ": `" ++ elem ++ "`" ++
          match ln with
          | Some n => if (n =? 0)%Z then "" else " (line " ++ Z_to_string n ++ ")"
          | None => "" end] in
  join "
" (app [ "## " ++ friendlyTitle (check it) ] (app headerLines
        [ "- Confidence: " ++ confidence it;
          "- Issue: " ++ risk;
          "- Recommendation: " ++ remediation;
          swcLines (swc it);
          "" ])).

(** Property names inherited by every object literal from [Object.prototype]. *)
Definition object_prototype_members : list string :=
  ["constructor"; "__proto__"; "toString"; "toLocaleString"; "valueOf";
   "hasOwnProperty"; "isPrototypeOf"; "propertyIsEnumerable";
   "__defineGetter__"; "__defineSetter__"; "__lookupGetter__";
   "__lookupSetter__"].

Definition is_proto_member (k : string) : bool :=
  existsb (String.eqb k) object_prototype_members.

(** The [byImpact] object literal: own properties in insertion order. *)
Definition Buckets := list (string * list NormalizedIssue).

Fixpoint bucket_get (k : string) (b : Buckets) : option (list NormalizedIssue) :=
  match b with
  | [] => None
  | (k', v) :: r => if String.eqb k k' then Some v else bucket_get k r
  end.

Fixpoint bucket_set (k : string) (v : list NormalizedIssue) (b : Buckets) : Buckets :=
  match b with
  | [] => [(k, v)]
  | (k', v') :: r =>
      if String.eqb k k' then (k', v) :: r else (k', v') :: bucket_set k v r
  end.

Definition severities : list string := ["High"; "Medium"; "Low"; "Informational"].

Definition byImpact_init : Buckets := map (fun s => (s, [])) severities.

(** [(byImpact[it.impact] ?? (byImpact[it.impact] = [])).push(it)]: an own
    array is pushed to; a missing key gets a fresh array; a key inherited
    from [Object.prototype] yields a non-array whose [push] is [undefined],
    so the call throws a [TypeError] ([None]). *)
Definition bucket_push (b : Buckets) (it : NormalizedIssue) : option Buckets :=
  let k := impact it in
  match bucket_get k b with
  | Some l => Some (bucket_set k (l ++ [it])%list b)
  | None => if is_proto_member k then None else Some (bucket_set k [it] b)
  end.

Fixpoint byImpact_from (b : Buckets) (items : list NormalizedIssue) : option Buckets :=
  match items with
  | [] => Some b
  | it :: r => match bucket_push b it with
               | Some b' => byImpact_from b' r
               | None => None
               end
  end.

Definition byImpact (items : list NormalizedIssue) : option Buckets :=
  byImpact_from byImpact_init items.

Definition bucket_of (b : Buckets) (sev : string) : list NormalizedIssue :=
  match bucket_get sev b with Some l => l | None => [] end.

(** [const sections = order.filter(...).map(...).join("\n")] *)
Definition render_sections (b : Buckets) : string :=
  join "
" (map (fun sev => "# " ++ sev ++ " Impact Findings

" ++ join "
" (map renderOne (bucket_of b sev)))
             (filter (fun sev => negb (Nat.eqb (length (bucket_of b sev)) 0))
                     severities)).

Definition no_vulnerabilities (address : string) : string :=
  "✅ No vulnerabilities found by Slither for " ++ address ++ ".".

(** [renderMarkdownDeterministic(address, items)]; [None] is the thrown
    [TypeError]. *)
Definition renderMarkdownDeterministic (address : string)
  (items : list NormalizedIssue) : option string :=
  match byImpact items with
  | None => None
  | Some b =>
      let sections := render_sections b in
      Some (if String.eqb sections "" then no_vulnerabilities address else sections)
  end.

(* ------------------------------------------------------------------ *)
(** ** Generative-Output Validator *)

(** [countsByImpact(items)]: the [reduce] over an accumulator that starts at
    zero for the four severities; only those four keys are read afterwards. *)
Definition countsByImpact (items : list NormalizedIssue) : string -> nat :=
  fold_left (fun acc it k => if String.eqb k (impact it) then S (acc k) else acc k)
            items (fun _ => 0%nat).

Fixpoint all_ws (s : string) : bool :=
  match s with
  | EmptyString => true
  | String c r => is_ws c && all_ws r
  end.

Fixpoint drop_prefix (p s : string) : string :=
  match p, s with
  | String _ p', String _ s' => drop_prefix p' s'
  | _, _ => s
  end.

Definition heading_text (sev : string) : string := "# " ++ sev ++ " Impact Findings".

(** A line matched by [new RegExp(`^# ${sev} Impact Findings\\s*$`, "m")]:
    the heading followed by whitespace only up to the end of its line. *)
Definition is_sev_heading (sev l : string) : bool :=
  prefix (heading_text sev) l && all_ws (drop_prefix (heading_text sev) l).

(** The lines of [md.split(re)[1]]: those after the first heading line up to
    the next line matching the same heading. *)
Fixpoint section_until (sev : string) (ls : list string) : list string :=
  match ls with
  | [] => []
  | l :: r => if is_sev_heading sev l then [] else l :: section_until sev r
  end.

Fixpoint split_section (sev : string) (ls : list string) : list string :=
  match ls with
  | [] => []
  | l :: r => if is_sev_heading sev l then section_until sev r else split_section sev r
  end.

Definition count_prefixed (p : string) (ls : list string) : nat :=
  length (filter (prefix p) ls).

(** [parseCountsFromMarkdown(md)[sev]] *)
Definition parseCountsFromMarkdown (md : string) (sev : string) : nat :=
  let section := split_section sev (split_lines md) in
  Nat.max (count_prefixed "## " section) (count_prefixed "### " section).

(** [/\]\(#.+?\)/.test(md)] *)
Definition anchor_tail (s : string) : bool :=
  match s with
  | EmptyString => false
  | String c r => negb (is_term c) && close_on_line r
  end.

Fixpoint containsForbiddenAnchors (md : string) : bool :=
  (prefix "](#" md && anchor_tail (drop_prefix "](#" md)) ||
  match md with
  | EmptyString => false
  | String _ r => containsForbiddenAnchors r
  end.

Definition writes_after_call_sentence : string :=
  "A state variable is written after an external call.".

(** [missingWritesAfterCallSentence(md, items)] *)
Definition missingWritesAfterCallSentence (md : string) (items : list NormalizedIssue)
  : bool :=
  let needs := existsb (fun i => writesAfterCall (facts i)) items in
  if negb needs then false
  else negb (includes md writes_after_call_sentence).

(** [validateOrFallback(md, enrichedIssues)] *)
Definition validateOrFallback (md : string) (enrichedIssues : list NormalizedIssue)
  : bool :=
  let expected := countsByImpact enrichedIssues in
  let seen := parseCountsFromMarkdown md in
  let countsOk := forallb (fun sev => Nat.eqb (expected sev) (seen sev)) severities in
  let anchorsOk := negb (containsForbiddenAnchors md) in
  let writesOk := negb (missingWritesAfterCallSentence md enrichedIssues) in
  countsOk && anchorsOk && writesOk.

(* ------------------------------------------------------------------ *)
(** ** Orchestrator: the rendering tail of [runAudit] *)

(** The [AUDIT_RENDERER] switch. *)
Inductive RendererMode := Deterministic | Generator.

(** The value [data.response] of a parsed reply [data] that is not
    [null]: absent or [null] (also for a primitive or array body, which has
    no [response] property), a string, or any other JSON value (number,
    boolean, array, object). *)
Inductive ResponseField :=
| RNullish
| RString (s : string)
| RNonString.

(** What [await fetch(...)] and [await aiRes.json()] produce: a rejected
    [fetch] (connection refused, reset, ...), a body that [json()] cannot
    parse, the JSON value [null], or any other JSON value, seen through its
    [response] field. *)
Inductive GeneratorReply :=
| Unreachable (msg : string)
| NonJsonBody
| JsonNullBody
| JsonBody (response : ResponseField).

Inductive AuditError :=
| FetchError (msg : string)
| JsonSyntaxError
| ReplyTypeError
| RenderTypeError.

Inductive Result :=
| Ok (md : string)
| Err (e : AuditError).

Definition of_render (r : option string) : Result :=
  match r with Some md => Ok md | None => Err RenderTypeError end.

(** [runAudit] from the normalized list [enrichedIssuesRaw] on: the empty
    early return, grouping, and the two rendering paths.  Writing
    [audit-summary.md] is an effect outside this model.  [null.response]
    throws a [TypeError]; so does [md.split] in [parseCountsFromMarkdown],
    called first by [validateOrFallback], when [md] is not a string. *)
Definition runAudit (mode : RendererMode) (address : string)
  (enrichedIssuesRaw : list NormalizedIssue) (reply : GeneratorReply) : Result :=
  match enrichedIssuesRaw with
  | [] => Ok ("✅ No vulnerabilities found by Slither for this contract ("
              ++ address ++ ").")
  | _ =>
    let enrichedIssues := groupByCheckAndElement enrichedIssuesRaw in
    match mode with
    | Deterministic => of_render (renderMarkdownDeterministic address enrichedIssues)
    | Generator =>
        match reply with
        | Unreachable msg => Err (FetchError msg)
        | NonJsonBody => Err JsonSyntaxError
        | JsonNullBody => Err ReplyTypeError
        | JsonBody RNonString => Err ReplyTypeError
        | JsonBody response =>
            let md := match response with RString r => r | _ => "" end in
            if validateOrFallback md enrichedIssues then Ok md
            else of_render (renderMarkdownDeterministic address enrichedIssues)
        end
    end
  end.

(* ------------------------------------------------------------------ *)
(** ** Sections of a Markdown document, as the spec reads them *)

(** A section runs from its top-level heading to the next top-level
    heading (a line starting with ["# "]); a sub-heading is a line starting
    with ["## "] or ["### "], counted at the more frequent depth. *)
Definition is_top_heading (l : string) : bool := prefix "# " l.

Fixpoint count_in_section (p : string) (ls : list string) : nat :=
  match ls with
  | [] => 0
  | l :: r =>
      if is_top_heading l then 0
      else (if prefix p l then 1 else 0) + count_in_section p r
  end.

Fixpoint subheadings_in (sev : string) (ls : list string) : option nat :=
  match ls with
  | [] => None
  | l :: r =>
      if String.eqb l (heading_text sev)
      then Some (Nat.max (count_in_section "## " r) (count_in_section "### " r))
      else subheadings_in sev r
  end.

(** [None]: the document has no top-level heading for [sev]. *)
Definition subheadings_under (md sev : string) : option nat :=
  subheadings_in sev (split_lines md).

(* ------------------------------------------------------------------ *)
(** ** Concrete inputs *)

Definition no_facts : Facts := deriveFacts None.

Definition mk_finding (c imp : string) (desc : string) (locs : list Location)
  : NormalizedIssue :=
  normalizeIssue c imp "Medium" (Some desc) locs None None.

Definition high_1 : NormalizedIssue :=
  mk_finding "controlled-delegatecall" "High" "delegatecall"
    [mkLocation "src/V.sol" (Some 8%Z) "callContract"].
Definition high_2 : NormalizedIssue :=
  mk_finding "reentrancy-no-eth" "High" "reentrancy"
    [mkLocation "src/V.sol" (Some 18%Z) "callContractAgain"].
Definition medium_1 : NormalizedIssue :=
  mk_finding "low-level-calls" "Medium" "low level call"
    [mkLocation "src/V.sol" (Some 20%Z) "callContractAgain"].

(** A candidate with one sub-heading under each of its two sections. *)
Definition candidate_two_sections : string :=
  "# High Impact Findings
## Controlled Delegatecall
# Medium Impact Findings
## Low-level calls
".

(** A second finding with a High and one with a Medium impact, as the
    generator was asked to render them. *)
Definition two_high_one_medium : list NormalizedIssue := [high_1; high_2; medium_1].

(** Two locations with different [file]s and [element]s that share the key
    ["src/V.sol:12::x"]. *)
Definition loc_colon_element : Location := mkLocation "src/V.sol" (Some 12%Z) ":x".
Definition loc_colon_file : Location := mkLocation "src/V.sol:12" None "x".

(** A [missing-zero-check] finding whose first location has no element. *)
Definition zero_check_unnamed_first : NormalizedIssue :=
  mk_finding "missing-zero-check" "Low" "lacks a zero-check on yourAddress"
    [mkLocation "src/V.sol" (Some 8%Z) ""; mkLocation "src/V.sol" (Some 9%Z) "yourAddress"].
Definition zero_check_named : NormalizedIssue :=
  mk_finding "missing-zero-check" "Low" "lacks a zero-check on yourAddress"
    [mkLocation "src/V.sol" (Some 14%Z) "yourAddress"].

Definition benign_low : NormalizedIssue :=
  mk_finding "reentrancy-benign" "Low" "state variables written after the call"
    [mkLocation "src/V.sol" (Some 14%Z) "callContract"].

(** A finding whose only location with a non-empty element shares its key
    with an earlier unnamed location ([src/V.sol:12] with no line). *)
Definition zero_check_masked : NormalizedIssue :=
  mk_finding "missing-zero-check" "Low" "lacks a zero-check"
    [mkLocation "src/V.sol:12" None ""; mkLocation "src/V.sol" (Some 12%Z) ":"].
Definition zero_check_unnamed : NormalizedIssue :=
  mk_finding "missing-zero-check" "Low" "lacks a zero-check"
    [mkLocation "src/W.sol" (Some 3%Z) ""].

(** An unmapped detector whose description has a line starting with ["## "]. *)
Definition unmapped_multiline : NormalizedIssue :=
  mk_finding "unused-return" "High" "Return value ignored:
## setUp()"
    [mkLocation "src/V.sol" (Some 30%Z) "setUp()"].

Definition optimization_finding : NormalizedIssue :=
  mk_finding "constable-states" "Optimization" "should be constant"
    [mkLocation "src/V.sol" (Some 4%Z) "s_otherVar"].
Definition tostring_finding : NormalizedIssue :=
  mk_finding "constable-states" "toString" "should be constant"
    [mkLocation "src/V.sol" (Some 4%Z) "s_otherVar"].

(* ------------------------------------------------------------------ *)
(** ** The grouping as the amended spec states it *)

Definition eligible (it : NormalizedIssue) : bool :=
  String.eqb (check it) "missing-zero-check".

(** The distinct strings of a list, in order of first appearance. *)
Fixpoint first_seen (seen : list string) (l : list string) : list string :=
  match l with
  | [] => []
  | x :: r => if existsb (String.eqb x) seen then first_seen seen r
              else x :: first_seen (x :: seen) r
  end.

(** The primary symbols of the eligible findings, in first-seen order. *)
Definition primary_symbols (items : list NormalizedIssue) : list string :=
  first_seen [] (map (fun it => first_element (locations it)) (filter eligible items)).

Definition group_members (items : list NormalizedIssue) (s : string)
  : list NormalizedIssue :=
  filter (fun it => eligible it && String.eqb (first_element (locations it)) s) items.

(** The first member, with the deduplicated union of all members' locations. *)
Definition merge_members (grp : list NormalizedIssue) : list NormalizedIssue :=
  match grp with
  | [] => []
  | first :: _ => [with_locations first (uniqueLocations (concat (map locations grp)))]
  end.

Definition grouping_by_symbol (items : list NormalizedIssue) : list NormalizedIssue :=
  filter (fun it => negb (eligible it)) items ++
  flat_map (fun s => merge_members (group_members items s)) (primary_symbols items).

(* ------------------------------------------------------------------ *)
(** ** Text that cannot open a Markdown heading line *)

Definition starts_hash (s : string) : bool :=
  match s with String c _ => (c =? "#"%char)%char | EmptyString => false end.

Fixpoint ends_term (s : string) : bool :=
  match s with
  | EmptyString => false
  | String c EmptyString => is_term c
  | String _ r => ends_term r
  end.

(** No line terminator of [s] is followed by ["#"]. *)
Fixpoint no_term_hash (s : string) : bool :=
  match s with
  | String c ((String d _) as r) =>
      negb (is_term c && (d =? "#"%char)%char) && no_term_hash r
  | _ => true
  end.

Definition location_safe (l : Location) : bool :=
  no_term_hash (file l) && no_term_hash (element l).

Definition swc_safe (m : SWCMeta) : bool :=
  match swc_id m with Some i => no_term_hash i | None => true end &&
  no_term_hash (swc_title m) && no_term_hash (swc_remediation m) &&
  forallb no_term_hash (swc_references m).

(** Every free-text field the renderer copies into a finding block. *)
Definition issue_safe (it : NormalizedIssue) : bool :=
  no_term_hash (check it) && no_term_hash (confidence it) &&
  no_term_hash (description it) && forallb location_safe (locations it) &&
  match swc it with Some m => swc_safe m | None => true end.

(** A line of text that is safe inside a finding block: it does not open
    a heading and none of its line terminators is followed by ["#"]. *)
Definition text_safe (s : string) : bool := no_term_hash s && negb (starts_hash s).

(** A line of a section body: a plain line or a ["## "] finding heading. *)
Definition body_line (l : string) : bool := negb (starts_hash l) || prefix "## " l.

Definition count_impact (items : list NormalizedIssue) (sev : string) : nat :=
  length (filter (fun it => String.eqb (impact it) sev) items).

(** The key [`${it.check}@@${elem}`] of an eligible finding. *)
Definition zero_check_key (s : string) : string := "missing-zero-check" ++ "@@" ++ s.
Arguments zero_check_key : simpl never.

(** A [Map] holding, for each symbol in turn, the entries [F s] under its key. *)
Definition segments (F : string -> list NormalizedIssue) (syms : list string)
  : IssueMap :=
  flat_map (fun s => map (pair (zero_check_key s)) (F s)) syms.

(** One row of [formatLocations]:
    [`  - ${l.file}${linePart}${elemPart}`]. *)
Definition location_row (l : Location) : string :=
  "  - " ++ file l ++
  match line l with Some n => ":" ++ Z_to_string n | None => "" end ++
  (if String.eqb (element l) "" then "" else " (element: " ++ element l ++ ")").

(** Every fact set in [f] is also set in [g]. *)
Definition facts_le (f g : Facts) : bool :=
  implb (writesAfterCall f) (writesAfterCall g) &&
  implb (mentionsDelegatecall f) (mentionsDelegatecall g) &&
  implb (mentionsLowLevelCall f) (mentionsLowLevelCall g) &&
  implb (exactStylePhrase f) (exactStylePhrase g) &&
  implb (mentionsZeroCheck f) (mentionsZeroCheck g).

(** Text matched by the regex atom [.]: no line terminator. *)
Fixpoint single_line (s : string) : bool :=
  match s with
  | EmptyString => true
  | String c r => negb (is_term c) && single_line r
  end.

(** The first eligible finding of each primary symbol, in input order. *)
Fixpoint first_members (seen : list string) (items : list NormalizedIssue)
  : list NormalizedIssue :=
  match items with
  | [] => []
  | it :: r =>
      if eligible it then
        let s := first_element (locations it) in
        if existsb (String.eqb s) seen then first_members seen r
        else it :: first_members (s :: seen) r
      else first_members seen r
  end.

(** Text made of ASCII characters only, where a byte is a UTF-16 code
    unit of the JavaScript string and [\u2028], [\u2029] cannot occur. *)
Fixpoint ascii_text (s : string) : bool :=
  match s with
  | EmptyString => true
  | String c r => (nat_of_ascii c <? 128)%nat && ascii_text r
  end.

(* ================================================================== *)
(** * Properties *)

(** The ground-truth output for one High and one Medium finding is itself
    rejected: its High section, as [parseCountsFromMarkdown] cuts it, runs
    on through the Medium section. *)
Lemma deterministic_output_rejected :
  exists md, renderMarkdownDeterministic "0xABC" [high_1; medium_1] = Some md /\
             parseCountsFromMarkdown md "High" = 2%nat /\
             validateOrFallback md [high_1; medium_1] = false.
Proof. eexists. split; [vm_compute; reflexivity | vm_compute; split; reflexivity]. Qed.

(** C1 (code_bug).  For two High findings and one Medium finding, the
    validator accepts a candidate whose High section (up to the next
    top-level heading) has a single sub-heading: the section extracted by
    [parseCountsFromMarkdown] is everything after the High heading, so the
    Medium sub-heading is counted for High too. *)
Theorem validator_accepts_miscounted_section :
  validateOrFallback candidate_two_sections two_high_one_medium = true /\
  subheadings_under candidate_two_sections "High" = Some 1%nat /\
  countsByImpact two_high_one_medium "High" = 2%nat.
Proof. vm_compute. repeat split. Qed.

(** C2 (counterexample).  A generator request that fails at the transport
    level makes [runAudit] reject with the fetch error, although the
    deterministic output for the same findings exists. *)
Lemma runAudit_generator_unreachable_rejects :
  runAudit Generator "0xABC" [high_1] (Unreachable "connect ECONNREFUSED")
    = Err (FetchError "connect ECONNREFUSED") /\
  exists md, renderMarkdownDeterministic "0xABC" (groupByCheckAndElement [high_1])
             = Some md.
Proof. split; [vm_compute; reflexivity | eexists; vm_compute; reflexivity]. Qed.

(** C3 (code_bug).  [uniqueLocations] drops a location that differs from
    every earlier one in [file] and [element]: the string key
    [file:line:element] of [{src/V.sol, 12, ":x"}] and of
    [{src/V.sol:12, null, "x"}] is the same. *)
Theorem uniqueLocations_drops_distinct_location :
  uniqueLocations [loc_colon_element; loc_colon_file] = [loc_colon_element] /\
  loc_colon_file <> loc_colon_element.
Proof. split; [vm_compute; reflexivity | discriminate]. Qed.

(** C4 (counterexample).  Two [missing-zero-check] findings whose first
    locations carry different element names (["" ] and ["yourAddress"]) are
    merged: the key uses the first location with a non-empty element. *)
Lemma group_key_skips_unnamed_first_location :
  length (groupByCheckAndElement [zero_check_unnamed_first; zero_check_named]) = 1%nat /\
  map (fun it => match locations it with l :: _ => element l | [] => "" end)
      [zero_check_unnamed_first; zero_check_named] = [""; "yourAddress"].
Proof. vm_compute. split; reflexivity. Qed.

(** C5 (counterexample).  A [missing-zero-check] finding given before a
    [reentrancy-benign] finding of the same severity is rendered after it. *)
Lemma low_section_order_not_input_order :
  option_map (fun b => map check (bucket_of b "Low"))
    (byImpact (groupByCheckAndElement [zero_check_named; benign_low]))
  = Some ["reentrancy-benign"; "missing-zero-check"].
Proof. vm_compute. reflexivity. Qed.

(** C6 (counterexample).  One High finding of an unmapped detector whose
    description has a line starting with ["## "]: the rendered High section
    has two sub-headings. *)
Lemma render_description_adds_subheading :
  option_map (fun md => subheadings_under md "High")
    (renderMarkdownDeterministic "0xABC" [unmapped_multiline]) = Some (Some 2%nat).
Proof. vm_compute. reflexivity. Qed.

(** C8 (code_bug).  Grouping twice merges two findings that one grouping
    keeps apart: the first grouping deduplicates away the only named
    location of [zero_check_masked] (its key collides with the unnamed one,
    see C3), so its primary symbol changes from [":"] to [""]. *)
Theorem group_not_idempotent :
  length (groupByCheckAndElement [zero_check_masked; zero_check_unnamed]) = 2%nat /\
  length (groupByCheckAndElement
            (groupByCheckAndElement [zero_check_masked; zero_check_unnamed])) = 1%nat.
Proof. vm_compute. split; reflexivity. Qed.

(** C10 (code_bug).  A finding whose impact is ["toString"] makes the
    renderer throw: [byImpact["toString"]] is inherited from
    [Object.prototype], so the [??] fallback is skipped and [.push] is not a
    function.  The empty list renders the fixed sentence. *)
Theorem render_prototype_impact_throws :
  renderMarkdownDeterministic "0xABC" [tostring_finding] = None /\
  renderMarkdownDeterministic "0xABC" [] = Some (no_vulnerabilities "0xABC").
Proof. vm_compute. split; reflexivity. Qed.

(** C7.  When some finding has [writesAfterCall], a candidate without the
    fixed sentence is rejected; a candidate containing it passes the
    sentence check; without such a finding the check never fails. *)
Theorem writes_after_call_sentence_check :
  forall md items,
    (existsb (fun i => writesAfterCall (facts i)) items = true ->
     includes md writes_after_call_sentence = false ->
     validateOrFallback md items = false) /\
    (includes md writes_after_call_sentence = true ->
     missingWritesAfterCallSentence md items = false) /\
    (existsb (fun i => writesAfterCall (facts i)) items = false ->
     missingWritesAfterCallSentence md items = false).
Proof.
  intros md items. unfold validateOrFallback, missingWritesAfterCallSentence.
  repeat split; intros H1; [intros H2 | |];
    rewrite ?H1; rewrite ?H2; simpl; rewrite ?andb_false_r;
    try reflexivity; destruct (negb _); reflexivity.
Qed.

Lemma writes_after_call_sentence_check_witness :
  existsb (fun i => writesAfterCall (facts i)) [benign_low] = true /\
  includes "# Low Impact Findings" writes_after_call_sentence = false /\
  validateOrFallback "# Low Impact Findings" [benign_low] = false /\
  missingWritesAfterCallSentence writes_after_call_sentence [benign_low] = false /\
  missingWritesAfterCallSentence "" [high_1] = false.
Proof.
  assert (Hn : existsb (fun i => writesAfterCall (facts i)) [benign_low] = true)
    by (vm_compute; reflexivity).
  assert (Hm : includes "# Low Impact Findings" writes_after_call_sentence = false)
    by (vm_compute; reflexivity).
  assert (Hs : includes writes_after_call_sentence writes_after_call_sentence = true)
    by (vm_compute; reflexivity).
  assert (Hh : existsb (fun i => writesAfterCall (facts i)) [high_1] = false)
    by (vm_compute; reflexivity).
  destruct (writes_after_call_sentence_check "# Low Impact Findings" [benign_low])
    as [H1 _].
  destruct (writes_after_call_sentence_check writes_after_call_sentence [benign_low])
    as [_ [H2 _]].
  destruct (writes_after_call_sentence_check "" [high_1]) as [_ [_ H3]].
  repeat split; auto.
Defined.

(** C9.  [missing-zero-check] resolves to no SWC entry for every
    description; a check with an explicit [case] never reads the
    description; any other check is resolved by the description heuristics
    alone. *)
Theorem enrich_explicit_table_first :
  forall (E : Type) (registry : string -> option E),
    (forall d, enrichWithSWC E registry "missing-zero-check" d = None) /\
    (forall c d, In c swc_switch_checks ->
       enrichWithSWC E registry c d = enrichWithSWC E registry c None) /\
    (forall c d, ~ In c swc_switch_checks ->
       enrichWithSWC E registry c d = enrichWithSWCByDescription E registry d).
Proof.
  intros E registry. split; [| split].
  - intros d. reflexivity.
  - intros c d Hin.
    repeat (destruct Hin as [<- | Hin]; [reflexivity |]). destruct Hin.
  - intros c d Hnin. unfold enrichWithSWC.
    destruct (String.eqb_spec c "controlled-delegatecall") as [-> | _];
      [exfalso; apply Hnin; simpl; tauto |].
    destruct (String.eqb_spec c "reentrancy-no-eth") as [-> | _];
      [exfalso; apply Hnin; simpl; tauto |].
    destruct (String.eqb_spec c "reentrancy-benign") as [-> | _];
      [exfalso; apply Hnin; simpl; tauto |].
    destruct (String.eqb_spec c "low-level-calls") as [-> | _];
      [exfalso; apply Hnin; simpl; tauto |].
    destruct (String.eqb_spec c "missing-zero-check") as [-> | _];
      [exfalso; apply Hnin; simpl; tauto |].
    reflexivity.
Qed.

Lemma enrich_explicit_table_first_witness :
  enrichWithSWC nat (fun _ => Some 1%nat) "low-level-calls" (Some "tx.origin used")
    = Some 1%nat /\
  enrichWithSWC nat (fun id => if String.eqb id "SWC-115" then Some 115%nat else None)
    "tx-origin" (Some "Uses tx.origin for authorization") = Some 115%nat.
Proof.
  destruct (enrich_explicit_table_first nat (fun _ => Some 1%nat)) as [_ [H2 _]].
  destruct (enrich_explicit_table_first nat
              (fun id => if String.eqb id "SWC-115" then Some 115%nat else None))
    as [_ [_ H3]].
  split.
  - rewrite (H2 "low-level-calls" (Some "tx.origin used")); [reflexivity |].
    simpl; tauto.
  - rewrite (H3 "tx-origin" (Some "Uses tx.origin for authorization")).
    + vm_compute. reflexivity.
    + simpl. intros H. repeat (destruct H as [H | H]; [discriminate H |]). exact H.
Defined.

(** C2 (amended).  In generator mode, for a non-empty finding list, a
    transport failure, a non-JSON body, a JSON [null] body and a
    [response] that is neither absent, [null] nor a string are propagated
    as errors; a [response] string, or the empty text when it is absent or
    [null], is returned when the validator accepts it, and otherwise the
    Deterministic Renderer's result is. *)
Theorem runAudit_generator_outcomes :
  forall address items reply,
    items <> [] ->
    let g := groupByCheckAndElement items in
    (forall msg, reply = Unreachable msg ->
       runAudit Generator address items reply = Err (FetchError msg)) /\
    (reply = NonJsonBody -> runAudit Generator address items reply = Err JsonSyntaxError) /\
    (reply = JsonNullBody \/ reply = JsonBody RNonString ->
       runAudit Generator address items reply = Err ReplyTypeError) /\
    (forall r md, reply = JsonBody r ->
       (r = RNullish /\ md = "") \/ r = RString md ->
       (validateOrFallback md g = true /\ runAudit Generator address items reply = Ok md) \/
       (validateOrFallback md g = false /\
        runAudit Generator address items reply
          = of_render (renderMarkdownDeterministic address g))).
Proof.
  intros address items reply Hne g.
  destruct items as [| it rest]; [contradiction |].
  split; [| split; [| split]].
  - intros msg ->. reflexivity.
  - intros ->. reflexivity.
  - intros [-> | ->]; reflexivity.
  - intros r md -> [[-> ->] | ->]; simpl; fold g;
      match goal with |- context [validateOrFallback ?m g] =>
        destruct (validateOrFallback m g); [left | right]; split; reflexivity end.
Qed.

Lemma runAudit_generator_outcomes_witness :
  [high_1] <> [] /\
  runAudit Generator "0xABC" [high_1] NonJsonBody = Err JsonSyntaxError /\
  runAudit Generator "0xABC" [high_1] JsonNullBody = Err ReplyTypeError /\
  runAudit Generator "0xABC" [high_1] (JsonBody RNullish) =
    of_render (renderMarkdownDeterministic "0xABC" (groupByCheckAndElement [high_1])).
Proof.
  assert (Hne : [high_1] <> []) by discriminate.
  destruct (runAudit_generator_outcomes "0xABC" [high_1] NonJsonBody Hne) as [_ [H2 _]].
  destruct (runAudit_generator_outcomes "0xABC" [high_1] JsonNullBody Hne)
    as [_ [_ [H3 _]]].
  destruct (runAudit_generator_outcomes "0xABC" [high_1] (JsonBody RNullish) Hne)
    as [_ [_ [_ H4]]].
  split; [exact Hne |]. split; [apply H2; reflexivity |].
  split; [apply H3; left; reflexivity |].
  destruct (H4 RNullish "" eq_refl (or_introl (conj eq_refl eq_refl)))
    as [[Hv _] | [_ Hr]]; [vm_compute in Hv; discriminate Hv | exact Hr].
Defined.

(* ------------------------------------------------------------------ *)
(** ** Lemmas on [uniqueLocations] *)

Lemma existsb_eqb_In : forall k l, existsb (String.eqb k) l = true <-> In k l.
Proof.
  intros k l. rewrite existsb_exists. split.
  - intros [x [Hx Heq]]. apply String.eqb_eq in Heq. subst. exact Hx.
  - intros H. exists k. split; [exact H | apply String.eqb_refl].
Qed.

Lemma existsb_eqb_ext : forall k s1 s2,
  (forall x, In x s1 <-> In x s2) ->
  existsb (String.eqb k) s1 = existsb (String.eqb k) s2.
Proof.
  intros k s1 s2 H.
  destruct (existsb (String.eqb k) s1) eqn:E1, (existsb (String.eqb k) s2) eqn:E2;
    try reflexivity.
  - apply existsb_eqb_In, H, existsb_eqb_In in E1. congruence.
  - apply existsb_eqb_In, H, existsb_eqb_In in E2. congruence.
Qed.

Lemma uniqueLocations_from_ext : forall l s1 s2,
  (forall x, In x s1 <-> In x s2) ->
  uniqueLocations_from s1 l = uniqueLocations_from s2 l.
Proof.
  induction l as [| a r IH]; intros s1 s2 H; simpl; [reflexivity |].
  rewrite (existsb_eqb_ext (loc_key a) s1 s2 H).
  destruct (existsb (String.eqb (loc_key a)) s2); [apply IH, H |].
  f_equal. apply IH. intros x. simpl. rewrite H. tauto.
Qed.

Lemma uniqueLocations_from_app : forall A B s,
  uniqueLocations_from s (A ++ B)%list =
  (uniqueLocations_from s A ++ uniqueLocations_from (map loc_key A ++ s) B)%list.
Proof.
  induction A as [| a r IH]; intros B s; simpl; [reflexivity |].
  destruct (existsb (String.eqb (loc_key a)) s) eqn:E.
  - rewrite IH. f_equal. apply uniqueLocations_from_ext.
    intros x. apply existsb_eqb_In in E. simpl.
    rewrite !in_app_iff. split; [tauto | intros [<- | H]; tauto].
  - rewrite IH. simpl. f_equal. f_equal. apply uniqueLocations_from_ext.
    intros x. simpl. rewrite !in_app_iff. simpl. tauto.
Qed.

Lemma uniqueLocations_from_idem : forall A s,
  uniqueLocations_from s (uniqueLocations_from s A) = uniqueLocations_from s A.
Proof.
  induction A as [| a r IH]; intros s; simpl; [reflexivity |].
  destruct (existsb (String.eqb (loc_key a)) s) eqn:E; [apply IH |].
  simpl. rewrite E. f_equal. apply IH.
Qed.

Lemma uniqueLocations_from_keys : forall A s x,
  In x (map loc_key (uniqueLocations_from s A)) \/ In x s <->
  In x (map loc_key A) \/ In x s.
Proof.
  induction A as [| a r IH]; intros s x; simpl; [tauto |].
  destruct (existsb (String.eqb (loc_key a)) s) eqn:E.
  - apply existsb_eqb_In in E. rewrite IH.
    split; [tauto | intros [[<- | H] | H]; tauto].
  - simpl. specialize (IH (loc_key a :: s) x). simpl in IH. tauto.
Qed.

(** Deduplicating a prefix first changes nothing. *)
Lemma uniqueLocations_merge : forall A B,
  uniqueLocations (uniqueLocations A ++ B)%list = uniqueLocations (A ++ B)%list.
Proof.
  intros A B. unfold uniqueLocations.
  rewrite !uniqueLocations_from_app, uniqueLocations_from_idem.
  f_equal. apply uniqueLocations_from_ext.
  intros x. rewrite !app_nil_r.
  pose proof (uniqueLocations_from_keys A [] x) as H. simpl in H. tauto.
Qed.

(* ------------------------------------------------------------------ *)
(** ** Lemmas on [first_seen] and on the [Map] model *)

Lemma first_seen_In : forall l seen x,
  In x (first_seen seen l) <-> In x l /\ ~ In x seen.
Proof.
  induction l as [| a r IH]; intros seen x; simpl; [tauto |].
  destruct (existsb (String.eqb a) seen) eqn:E.
  - apply existsb_eqb_In in E. rewrite IH.
    split; [tauto |]. intros [[Hax | H] H']; [subst; contradiction | tauto].
  - assert (Ha : ~ In a seen).
    { intros Hin. apply (proj2 (existsb_eqb_In a seen)) in Hin. congruence. }
    simpl. rewrite IH. simpl.
    split.
    + intros [Hax | [H1 H2]]; [subst; tauto | tauto].
    + intros [[Hax | H1] H2]; [left; exact Hax |].
      destruct (String.eqb_spec a x) as [Hax | Hne]; [left; exact Hax |].
      right. split; [exact H1 | intros [H | H]; [congruence | contradiction]].
Qed.

Lemma first_seen_NoDup : forall l seen, NoDup (first_seen seen l).
Proof.
  induction l as [| a r IH]; intros seen; simpl; [constructor |].
  destruct (existsb (String.eqb a) seen); [apply IH |].
  constructor; [| apply IH].
  rewrite first_seen_In. simpl. tauto.
Qed.

Lemma first_seen_snoc : forall l seen x,
  first_seen seen (l ++ [x])%list =
  (first_seen seen l ++
   if existsb (String.eqb x) seen || existsb (String.eqb x) l then [] else [x])%list.
Proof.
  induction l as [| a r IH]; intros seen x; simpl.
  - rewrite orb_false_r. destruct (existsb (String.eqb x) seen); reflexivity.
  - destruct (existsb (String.eqb a) seen) eqn:E.
    + rewrite IH. f_equal.
      destruct (String.eqb_spec x a) as [-> | _]; [rewrite E; reflexivity |].
      reflexivity.
    + simpl. rewrite IH. f_equal. f_equal. cbn [existsb].
      destruct (String.eqb x a), (existsb (String.eqb x) seen),
               (existsb (String.eqb x) r); reflexivity.
Qed.

Lemma zero_check_key_eqb : forall s t,
  String.eqb (zero_check_key s) (zero_check_key t) = String.eqb s t.
Proof.
  intros s t. destruct (String.eqb_spec s t) as [-> | Hne]; [apply String.eqb_refl |].
  apply String.eqb_neq. intros H. unfold zero_check_key in H. simpl in H.
  inversion H. contradiction.
Qed.

Lemma group_key_eligible : forall it,
  eligible it = true -> group_key it = zero_check_key (first_element (locations it)).
Proof.
  intros it H. unfold eligible in H. apply String.eqb_eq in H.
  unfold group_key, zero_check_key. rewrite H. reflexivity.
Qed.

Section MapOverSymbols.

Variable F : string -> list NormalizedIssue.

Lemma map_get_app : forall k (a b : IssueMap),
  map_get k (a ++ b)%list =
  match map_get k a with Some v => Some v | None => map_get k b end.
Proof.
  induction a as [| [k' v'] r IH]; intros b; simpl; [reflexivity |].
  destruct (String.eqb k k'); [reflexivity | apply IH].
Qed.

Lemma map_get_segment_other : forall s0 s (vs : list NormalizedIssue),
  s <> s0 -> map_get (zero_check_key s0) (map (pair (zero_check_key s)) vs) = None.
Proof.
  intros s0 s vs Hne. induction vs as [| v r IH]; simpl; [reflexivity |].
  rewrite ?zero_check_key_eqb. destruct (String.eqb_spec s0 s); [congruence | exact IH].
Qed.

Lemma map_get_segments : forall syms s0,
  map_get (zero_check_key s0) (segments F syms) =
  if existsb (String.eqb s0) syms then hd_error (F s0) else None.
Proof.
  unfold segments.
  induction syms as [| s r IH]; intros s0; simpl; [reflexivity |].
  rewrite map_get_app. destruct (String.eqb_spec s0 s) as [-> | Hne].
  - simpl orb. destruct (F s) as [| v vs] eqn:EF; simpl.
    + rewrite IH, EF. destruct (existsb (String.eqb s) r); reflexivity.
    + rewrite ?String.eqb_refl. reflexivity.
  - rewrite map_get_segment_other by congruence. apply IH.
Qed.

Lemma map_replace_app_notin : forall k v (a b : IssueMap),
  map_get k a = None -> map_replace k v (a ++ b)%list = (a ++ map_replace k v b)%list.
Proof.
  induction a as [| [k' v'] r IH]; intros b H; simpl in *; [reflexivity |].
  destruct (String.eqb k k'); [discriminate | rewrite IH; auto].
Qed.

Lemma segments_app : forall a b,
  segments F (a ++ b)%list = (segments F a ++ segments F b)%list.
Proof. intros a b. unfold segments. apply flat_map_app. Qed.

Lemma map_snd_segments : forall syms, map snd (segments F syms) = flat_map F syms.
Proof.
  unfold segments. induction syms as [| s r IH]; simpl; [reflexivity |].
  rewrite map_app, IH, map_map. simpl. rewrite map_id. reflexivity.
Qed.

End MapOverSymbols.

Lemma segments_ext : forall F G syms,
  (forall s, In s syms -> F s = G s) -> segments F syms = segments G syms.
Proof.
  intros F G syms H. unfold segments. induction syms as [| s r IH]; [reflexivity |].
  simpl. rewrite (H s (or_introl eq_refl)). f_equal.
  apply IH. intros x Hx. apply H. right. exact Hx.
Qed.

Lemma map_replace_segments : forall F syms s0 m v,
  NoDup syms -> In s0 syms -> F s0 = [m] ->
  map_replace (zero_check_key s0) v (segments F syms) =
  segments (fun s => if String.eqb s s0 then [v] else F s) syms.
Proof.
  intros F syms s0 m v Hnd Hin Hm. induction syms as [| s r IH]; [destruct Hin |].
  inversion Hnd as [| ? ? Hsr Hnd']; subst.
  unfold segments; simpl. fold (segments F r).
  fold (segments (fun s1 => if String.eqb s1 s0 then [v] else F s1) r).
  destruct (String.eqb_spec s s0) as [-> | Hne].
  - rewrite Hm. simpl. rewrite String.eqb_refl. f_equal.
    apply segments_ext. intros s Hs.
    destruct (String.eqb_spec s s0); [subst; contradiction | reflexivity].
  - rewrite map_replace_app_notin by (apply map_get_segment_other; exact Hne).
    f_equal. apply IH; [exact Hnd' |].
    destruct Hin as [Heq | Hin]; [congruence | exact Hin].
Qed.

(* ------------------------------------------------------------------ *)
(** ** The grouping loop *)

Lemma with_locations_twice : forall it a b,
  with_locations (with_locations it a) b = with_locations it b.
Proof. intros it a b. reflexivity. Qed.

Lemma group_members_snoc : forall p it s,
  group_members (p ++ [it])%list s =
  (group_members p s ++
   if eligible it && String.eqb (first_element (locations it)) s then [it] else [])%list.
Proof.
  intros p it s. unfold group_members. rewrite filter_app. simpl.
  destruct (eligible it && _); reflexivity.
Qed.

Lemma primary_symbols_In : forall p s,
  In s (primary_symbols p) <-> group_members p s <> [].
Proof.
  intros p s. unfold primary_symbols, group_members.
  rewrite first_seen_In, in_map_iff. split.
  - intros [[it [Hs Hin]] _]. apply filter_In in Hin as [Hin He].
    intros Hnil. assert (Hx : In it (filter (fun it0 => eligible it0 &&
      String.eqb (first_element (locations it0)) s) p)).
    { apply filter_In. split; [exact Hin |]. rewrite He, Hs, String.eqb_refl.
      reflexivity. }
    rewrite Hnil in Hx. destruct Hx.
  - intros Hne. destruct (filter _ p) as [| it r] eqn:Ef; [contradiction |].
    assert (Hx : In it (it :: r)) by (left; reflexivity).
    rewrite <- Ef in Hx. apply filter_In in Hx as [Hin Hb].
    apply andb_prop in Hb as [He Hs]. apply String.eqb_eq in Hs.
    split; [| intros []]. exists it. split; [exact Hs |].
    apply filter_In. split; assumption.
Qed.

Lemma primary_symbols_snoc_old : forall p it,
  (eligible it = false \/ In (first_element (locations it)) (primary_symbols p)) ->
  primary_symbols (p ++ [it])%list = primary_symbols p.
Proof.
  intros p it H. unfold primary_symbols. rewrite filter_app. simpl.
  destruct (eligible it) eqn:He.
  - destruct H as [H | H]; [discriminate |].
    unfold primary_symbols in H. apply first_seen_In in H as [H _].
    simpl. rewrite map_app. simpl. rewrite first_seen_snoc.
    apply existsb_eqb_In in H. rewrite H. simpl. apply app_nil_r.
  - rewrite app_nil_r. reflexivity.
Qed.

Lemma primary_symbols_snoc_new : forall p it,
  eligible it = true -> ~ In (first_element (locations it)) (primary_symbols p) ->
  primary_symbols (p ++ [it])%list =
  (primary_symbols p ++ [first_element (locations it)])%list.
Proof.
  intros p it He Hn. unfold primary_symbols in *. rewrite filter_app. simpl.
  rewrite He, map_app. simpl. rewrite first_seen_snoc. simpl.
  destruct (existsb _ _) eqn:E; [| reflexivity].
  exfalso. apply Hn. apply first_seen_In. split; [apply existsb_eqb_In, E | intros []].
Qed.

Lemma group_fold_invariant : forall p,
  fold_left group_step p ([], []) =
  (segments (fun s => merge_members (group_members p s)) (primary_symbols p),
   filter (fun it => negb (eligible it)) p).
Proof.
  induction p as [| it p IH] using rev_ind; [reflexivity |].
  rewrite fold_left_app, IH. simpl.
  rewrite filter_app. simpl.
  set (s0 := first_element (locations it)).
  destruct (String.eqb (check it) "missing-zero-check") eqn:Hc.
  - assert (He : eligible it = true) by exact Hc.
    rewrite He. simpl. rewrite app_nil_r.
    rewrite (group_key_eligible it He). fold s0.
    rewrite map_get_segments.
    destruct (existsb (String.eqb s0) (primary_symbols p)) eqn:Hin.
    + apply existsb_eqb_In in Hin.
      pose proof (proj1 (primary_symbols_In p s0) Hin) as Hne.
      destruct (group_members p s0) as [| first rest] eqn:Eg; [contradiction |].
      simpl.
      rewrite (map_replace_segments _ _ s0
                 (with_locations first
                    (uniqueLocations (concat (map locations (first :: rest))))))
        by (apply first_seen_NoDup || exact Hin || (rewrite Eg; reflexivity)).
      rewrite (primary_symbols_snoc_old p it (or_intror Hin)).
      f_equal. apply segments_ext. intros s Hs.
      rewrite group_members_snoc, He. simpl. fold s0.
      destruct (String.eqb_spec s s0) as [-> | Hne'].
      * rewrite String.eqb_refl, Eg. simpl.
        rewrite with_locations_twice, uniqueLocations_merge, map_app, concat_app.
        simpl. rewrite app_nil_r, app_assoc. reflexivity.
      * destruct (String.eqb_spec s0 s); [congruence |].
        rewrite app_nil_r. reflexivity.
    + assert (Hn : ~ In s0 (primary_symbols p)).
      { intros H. apply existsb_eqb_In in H. congruence. }
      rewrite (primary_symbols_snoc_new p it He Hn). fold s0.
      rewrite segments_app. f_equal. f_equal.
      * apply segments_ext. intros s Hs.
        rewrite group_members_snoc, He. simpl. fold s0.
        destruct (String.eqb_spec s0 s) as [-> | _]; [contradiction |].
        rewrite app_nil_r. reflexivity.
      * unfold segments. simpl. rewrite group_members_snoc, He. simpl. fold s0.
        rewrite String.eqb_refl.
        assert (Eg : group_members p s0 = []).
        { destruct (group_members p s0) eqn:Eg; [reflexivity |].
          exfalso. apply Hn, primary_symbols_In. rewrite Eg. discriminate. }
        rewrite Eg. simpl. rewrite app_nil_r. reflexivity.
  - assert (He : eligible it = false) by exact Hc.
    rewrite He. simpl.
    rewrite (primary_symbols_snoc_old p it (or_introl He)).
    f_equal. apply segments_ext. intros s Hs.
    rewrite group_members_snoc, He. simpl. rewrite app_nil_r. reflexivity.
Qed.

(** [groupByCheckAndElement] is [grouping_by_symbol]: the ineligible
    findings in input order, then one merged finding per primary symbol. *)
Lemma groupByCheckAndElement_spec : forall items,
  groupByCheckAndElement items = grouping_by_symbol items.
Proof.
  intros items. unfold groupByCheckAndElement.
  rewrite group_fold_invariant, map_snd_segments. reflexivity.
Qed.

(** C4 (amended).  The Grouper merges the [missing-zero-check] findings by
    the element name of the first location whose element name is non-empty
    ([""] when there is none): the output is the other findings in input
    order, then per such symbol, in order of first appearance, the first
    finding with that symbol carrying the deduplicated union of the
    locations of all findings with that symbol. *)
Theorem group_key_first_named_element : forall items,
  groupByCheckAndElement items =
  (filter (fun it => negb (eligible it)) items ++
   flat_map (fun s =>
       merge_members
         (filter (fun it => eligible it &&
                    String.eqb (first_element (locations it)) s) items))
     (first_seen [] (map (fun it => first_element (locations it))
                         (filter eligible items))))%list.
Proof. intros items. apply groupByCheckAndElement_spec. Qed.

(* ------------------------------------------------------------------ *)
(** ** The [byImpact] buckets *)

Lemma bucket_get_set_same : forall k v b, bucket_get k (bucket_set k v b) = Some v.
Proof.
  intros k v b. induction b as [| [k' v'] r IH]; simpl.
  - rewrite String.eqb_refl. reflexivity.
  - destruct (String.eqb_spec k k') as [-> | Hne]; simpl.
    + rewrite String.eqb_refl. reflexivity.
    + destruct (String.eqb_spec k k'); [contradiction | exact IH].
Qed.

Lemma bucket_get_set_other : forall k k' v b,
  k' <> k -> bucket_get k' (bucket_set k v b) = bucket_get k' b.
Proof.
  intros k k' v b Hne. induction b as [| [k2 v2] r IH]; simpl.
  - destruct (String.eqb_spec k' k); [contradiction | reflexivity].
  - destruct (String.eqb_spec k k2) as [-> | Hne2]; simpl.
    + destruct (String.eqb_spec k' k2); [contradiction | reflexivity].
    + destruct (String.eqb k' k2); [reflexivity | exact IH].
Qed.

Lemma bucket_push_spec : forall b it,
  is_proto_member (impact it) = false ->
  exists b', bucket_push b it = Some b' /\
    forall sev, bucket_of b' sev =
      (bucket_of b sev ++ if String.eqb (impact it) sev then [it] else [])%list.
Proof.
  intros b it Hp. unfold bucket_push.
  destruct (bucket_get (impact it) b) as [l |] eqn:Eb; [| rewrite Hp];
    eexists; (split; [reflexivity |]); intros sev; unfold bucket_of;
    destruct (String.eqb_spec (impact it) sev) as [<- | Hne].
  - rewrite bucket_get_set_same, Eb. reflexivity.
  - rewrite (bucket_get_set_other _ _ _ _ (not_eq_sym Hne)), app_nil_r. reflexivity.
  - rewrite bucket_get_set_same, Eb. reflexivity.
  - rewrite (bucket_get_set_other _ _ _ _ (not_eq_sym Hne)), app_nil_r. reflexivity.
Qed.

Lemma byImpact_from_spec : forall items b,
  Forall (fun it => is_proto_member (impact it) = false) items ->
  exists b', byImpact_from b items = Some b' /\
    forall sev, bucket_of b' sev =
      (bucket_of b sev ++ filter (fun it => String.eqb (impact it) sev) items)%list.
Proof.
  induction items as [| it r IH]; intros b Hf; simpl.
  - exists b. split; [reflexivity | intros sev; rewrite app_nil_r; reflexivity].
  - inversion Hf as [| ? ? Hit Hr]; subst.
    destruct (bucket_push_spec b it Hit) as [b1 [E1 H1]]. rewrite E1.
    destruct (IH b1 Hr) as [b2 [E2 H2]]. exists b2. split; [exact E2 |].
    intros sev. rewrite H2, H1, <- app_assoc.
    destruct (String.eqb (impact it) sev); reflexivity.
Qed.

Lemma bucket_of_init : forall sev, bucket_of byImpact_init sev = [].
Proof.
  intros sev. unfold bucket_of, byImpact_init. simpl.
  destruct (String.eqb sev "High"), (String.eqb sev "Medium"),
           (String.eqb sev "Low"), (String.eqb sev "Informational"); reflexivity.
Qed.

Lemma byImpact_spec : forall items,
  Forall (fun it => is_proto_member (impact it) = false) items ->
  exists b, byImpact items = Some b /\
    forall sev, bucket_of b sev = filter (fun it => String.eqb (impact it) sev) items.
Proof.
  intros items Hf. destruct (byImpact_from_spec items byImpact_init Hf) as [b [E H]].
  exists b. split; [exact E |]. intros sev. rewrite H, bucket_of_init. reflexivity.
Qed.

Lemma grouping_by_symbol_impacts : forall (P : string -> Prop) items,
  Forall (fun it => P (impact it)) items ->
  Forall (fun it => P (impact it)) (grouping_by_symbol items).
Proof.
  intros P items Hf. unfold grouping_by_symbol. apply Forall_app. split.
  - apply Forall_forall. intros it Hin. apply filter_In in Hin as [Hin _].
    exact (proj1 (Forall_forall _ _) Hf it Hin).
  - apply Forall_forall. intros it Hin. apply in_flat_map in Hin as [s [_ Hin]].
    unfold merge_members in Hin.
    destruct (group_members items s) as [| first rest] eqn:Eg; [destruct Hin |].
    destruct Hin as [<- | []]. simpl.
    assert (Hfirst : In first (group_members items s)) by (rewrite Eg; left; reflexivity).
    apply filter_In in Hfirst as [Hfirst _].
    exact (proj1 (Forall_forall _ _) Hf first Hfirst).
Qed.

(** C5 (amended).  When no impact is an [Object.prototype] member name,
    the section of each severity lists that severity's non-grouped findings
    in input order, then its grouped [missing-zero-check] findings, one per
    primary symbol, in order of the symbol's first appearance. *)
Theorem section_order_passthrough_then_groups : forall items sev,
  Forall (fun it => is_proto_member (impact it) = false) items ->
  exists b, byImpact (groupByCheckAndElement items) = Some b /\
    bucket_of b sev =
    (filter (fun it => String.eqb (impact it) sev)
            (filter (fun it => negb (eligible it)) items) ++
     filter (fun it => String.eqb (impact it) sev)
            (flat_map (fun s => merge_members (group_members items s))
                      (primary_symbols items)))%list.
Proof.
  intros items sev Hf.
  rewrite groupByCheckAndElement_spec.
  destruct (byImpact_spec (grouping_by_symbol items)
              (grouping_by_symbol_impacts (fun i => is_proto_member i = false) items Hf))
    as [b [E H]].
  exists b. split; [exact E |]. rewrite H. unfold grouping_by_symbol.
  apply filter_app.
Qed.

Lemma section_order_passthrough_then_groups_witness :
  Forall (fun it => is_proto_member (impact it) = false) [zero_check_named; benign_low] /\
  exists b, byImpact (groupByCheckAndElement [zero_check_named; benign_low]) = Some b /\
    map check (bucket_of b "Low") = ["reentrancy-benign"; "missing-zero-check"].
Proof.
  assert (Hf : Forall (fun it => is_proto_member (impact it) = false)
                 [zero_check_named; benign_low])
    by (repeat constructor).
  split; [exact Hf |].
  destruct (section_order_passthrough_then_groups [zero_check_named; benign_low] "Low" Hf)
    as [b [E H]].
  exists b. split; [exact E |]. rewrite H. vm_compute. reflexivity.
Defined.

(* ------------------------------------------------------------------ *)
(** ** Lemmas on the lines of rendered text *)

Lemma split_lines_cons : forall s,
  exists h t, split_lines s = h :: t /\ starts_hash h = starts_hash s.
Proof.
  induction s as [| c r IH]; simpl.
  - exists "", []. split; reflexivity.
  - destruct IH as [h [t [E _]]]. rewrite E.
    destruct (is_term c) eqn:Ec.
    + exists "", (h :: t). split; [reflexivity |].
      apply orb_true_iff in Ec as [E1 | E1]; apply Ascii.eqb_eq in E1; subst;
        reflexivity.
    + exists (String c h), t. split; reflexivity.
Qed.

Lemma split_lines_app_term : forall a c b, is_term c = true ->
  split_lines (a ++ String c b) = (split_lines a ++ split_lines b)%list.
Proof.
  induction a as [| d r IH]; intros c b Hc; simpl.
  - rewrite Hc. reflexivity.
  - rewrite (IH c b Hc). destruct (is_term d); [reflexivity |].
    destruct (split_lines_cons r) as [h [t [E _]]]. rewrite E. reflexivity.
Qed.

Lemma split_lines_join : forall x xs,
  split_lines (join (String "010" "") (x :: xs)) = concat (map split_lines (x :: xs)).
Proof.
  intros x xs. revert x. induction xs as [| y r IH]; intros x.
  - simpl. rewrite app_nil_r. reflexivity.
  - change (join (String "010" "") (x :: y :: r))
      with (x ++ String "010" (join (String "010" "") (y :: r))).
    rewrite split_lines_app_term by reflexivity. rewrite IH. reflexivity.
Qed.

Lemma split_lines_join_map : forall (A : Type) (f : A -> string) x xs,
  split_lines (join (String "010" "") (map f (x :: xs)))
  = concat (map (fun a => split_lines (f a)) (x :: xs)).
Proof.
  intros A f x xs. change (map f (x :: xs)) with (f x :: map f xs).
  rewrite split_lines_join. change (f x :: map f xs) with (map f (x :: xs)).
  rewrite map_map. reflexivity.
Qed.

Lemma split_lines_hash2 : forall s,
  exists h t, split_lines s = h :: t /\ split_lines ("## " ++ s) = ("## " ++ h) :: t.
Proof.
  intros s. destruct (split_lines_cons s) as [h [t [E _]]].
  exists h, t. split; [exact E |]. simpl. rewrite E. reflexivity.
Qed.

Lemma no_term_hash_step : forall c d s,
  no_term_hash (String c (String d s))
  = negb (is_term c && (d =? "#"%char)%char) && no_term_hash (String d s).
Proof. reflexivity. Qed.

Lemma ends_term_step : forall c d s,
  ends_term (String c (String d s)) = ends_term (String d s).
Proof. reflexivity. Qed.

Lemma no_term_hash_app : forall a b,
  no_term_hash (a ++ b)
  = no_term_hash a && no_term_hash b && negb (ends_term a && starts_hash b).
Proof.
  induction a as [| c r IH]; intros b.
  - simpl. destruct (no_term_hash b); reflexivity.
  - destruct r as [| d r'].
    + destruct b as [| e b']; [simpl; destruct (is_term c); reflexivity |].
      change (String c "" ++ String e b') with (String c (String e b')).
      change (no_term_hash (String c "")) with true.
      change (ends_term (String c "")) with (is_term c).
      change (starts_hash (String e b')) with (e =? "#"%char)%char.
      rewrite no_term_hash_step.
      destruct (is_term c), (e =? "#"%char)%char, (no_term_hash (String e b'));
        reflexivity.
    + specialize (IH b).
      change (String d r' ++ b) with (String d (r' ++ b)) in IH.
      change (String c (String d r') ++ b) with (String c (String d (r' ++ b))).
      rewrite !no_term_hash_step, ends_term_step, IH, !andb_assoc. reflexivity.
Qed.

Lemma ends_term_app_nonempty : forall a c b,
  ends_term (a ++ String c b) = ends_term (String c b).
Proof.
  induction a as [| d r IH]; intros c b; [reflexivity |].
  destruct r as [| e r']; [reflexivity |]. exact (IH c b).
Qed.

Lemma starts_hash_app : forall a b,
  starts_hash (a ++ b) = match a with EmptyString => starts_hash b | _ => starts_hash a end.
Proof. intros [| c r] b; reflexivity. Qed.

Lemma no_term_hash_tail : forall c r, no_term_hash (String c r) = true -> no_term_hash r = true.
Proof.
  intros c [| d r] H; [reflexivity |].
  rewrite no_term_hash_step in H. apply andb_true_iff in H. apply H.
Qed.

Lemma no_term_hash_cons_plain : forall c s, is_term c = false ->
  no_term_hash (String c s) = no_term_hash s.
Proof.
  intros c [| d s] H; [reflexivity |]. rewrite no_term_hash_step, H. reflexivity.
Qed.

Lemma lines_after_first : forall s, no_term_hash s = true ->
  Forall (fun l => starts_hash l = false) (tl (split_lines s)).
Proof.
  induction s as [| c r IH]; intros H; simpl; [constructor |].
  pose proof (no_term_hash_tail c r H) as Hr.
  destruct (split_lines_cons r) as [h [t [E Hh]]].
  destruct (is_term c) eqn:Ec; simpl; rewrite E.
  - constructor.
    + rewrite Hh. destruct r as [| d r']; [reflexivity |].
      rewrite no_term_hash_step, Ec in H. simpl.
      destruct ((d =? "#")%char); simpl in H; [discriminate | reflexivity].
    + change t with (tl (h :: t)). rewrite <- E. apply IH. exact Hr.
  - change t with (tl (h :: t)). rewrite <- E. apply IH. exact Hr.
Qed.

Lemma text_safe_lines : forall s, text_safe s = true ->
  Forall (fun l => starts_hash l = false) (split_lines s).
Proof.
  intros s H. unfold text_safe in H. apply andb_true_iff in H as [H1 H2].
  apply negb_true_iff in H2.
  destruct (split_lines_cons s) as [h [t [E Hh]]]. rewrite E.
  constructor; [congruence |].
  change t with (tl (h :: t)). rewrite <- E. apply lines_after_first. exact H1.
Qed.

Lemma Z_to_string_safe : forall z, no_term_hash (Z_to_string z) = true.
Proof.
  assert (Hu : forall u, no_term_hash (NilEmpty.string_of_uint u) = true).
  { induction u; [reflexivity | ..];
      cbn [NilEmpty.string_of_uint]; rewrite no_term_hash_cons_plain by reflexivity;
      exact IHu. }
  intros z. unfold Z_to_string. destruct (Z.to_int z) as [u | u]; cbn [NilEmpty.string_of_int].
  - apply Hu.
  - rewrite no_term_hash_cons_plain by reflexivity. apply Hu.
Qed.

Lemma no_term_hash_cons : forall c s,
  no_term_hash (String c s) = negb (is_term c && starts_hash s) && no_term_hash s.
Proof.
  intros c [| d s]; [destruct (is_term c); reflexivity |]. apply no_term_hash_step.
Qed.

Lemma text_safe_iff : forall s,
  text_safe s = true <-> no_term_hash s = true /\ starts_hash s = false.
Proof.
  intros s. unfold text_safe. rewrite andb_true_iff, negb_true_iff. reflexivity.
Qed.

(** Splits [text_safe] goals into the [no_term_hash] of each appended
    piece and the seams between pieces, then closes them from the
    hypotheses on the variable pieces. *)
Ltac text_safe_solve :=
  unfold text_safe;
  repeat (rewrite no_term_hash_app || rewrite ends_term_app_nonempty);
  repeat match goal with
         | H : no_term_hash ?x = true |- context [no_term_hash ?x] => rewrite H
         end;
  simpl; rewrite ?andb_false_r; reflexivity.

Lemma text_safe_join : forall xs, Forall (fun x => text_safe x = true) xs ->
  text_safe (join (String "010" "") xs) = true.
Proof.
  induction xs as [| x r IH]; intros H; [reflexivity |].
  inversion H as [| ? ? Hx Hr]; subst.
  destruct r as [| y r']; [exact Hx |].
  specialize (IH Hr).
  change (join (String "010" "") (x :: y :: r'))
    with (x ++ String "010" (join (String "010" "") (y :: r'))).
  set (J := join (String "010" "") (y :: r')) in *. clearbody J.
  apply text_safe_iff in Hx as [Hx1 Hx2]. apply text_safe_iff in IH as [HJ1 HJ2].
  assert (Hs : starts_hash (x ++ String "010" J) = false)
    by (destruct x; [reflexivity | exact Hx2]).
  apply text_safe_iff. split; [| exact Hs].
  rewrite no_term_hash_app, no_term_hash_cons, Hx1, HJ1, HJ2.
  change (starts_hash (String "010" J)) with false. rewrite !andb_false_r. reflexivity.
Qed.

Lemma risk_safe : forall it, no_term_hash (description it) = true ->
  no_term_hash (fst (risk_and_remediation it)) = true /\
  no_term_hash (snd (risk_and_remediation it)) = true.
Proof.
  intros it H. unfold risk_and_remediation. cbv zeta.
  repeat match goal with
         | |- context [if String.eqb ?a ?b then _ else _] => destruct (String.eqb a b)
         end; split; first [reflexivity | exact H].
Qed.

Lemma friendlyTitle_safe : forall c, no_term_hash c = true ->
  no_term_hash (friendlyTitle c) = true.
Proof.
  intros c H. unfold friendlyTitle.
  repeat match goal with
         | |- context [if String.eqb ?a ?b then _ else _] => destruct (String.eqb a b)
         end; first [reflexivity | exact H].
Qed.

Lemma formatLocations_from_safe : forall locs seen, forallb location_safe locs = true ->
  Forall (fun x => text_safe x = true) (formatLocations_from seen locs).
Proof.
  induction locs as [| l r IH]; intros seen H; cbn [formatLocations_from]; [constructor |].
  cbn [forallb] in H. apply andb_true_iff in H as [Hl Hr].
  unfold location_safe in Hl. apply andb_true_iff in Hl as [Hf He].
  destruct (existsb _ _); [apply IH; exact Hr |].
  constructor; [| apply IH; exact Hr].
  destruct (line l) as [n |];
    [pose proof (Z_to_string_safe n) as Hz; set (zs := Z_to_string n) in *; clearbody zs |];
    destruct (String.eqb (element l) ""); text_safe_solve.
Qed.

Lemma contract_line_safe : forall locs, forallb location_safe locs = true ->
  text_safe ("- Contract: " ++ match locs with
                               | main :: _ => file main
                               | [] => "(unknown file)" end) = true.
Proof.
  intros [| m r] H; [reflexivity |].
  cbn [forallb] in H. unfold location_safe in H.
  apply andb_true_iff in H as [H _]. apply andb_true_iff in H as [Hf _].
  text_safe_solve.
Qed.

Lemma element_line_safe : forall label elem sfx,
  label = "Function" \/ label = "Element" ->
  no_term_hash elem = true -> no_term_hash sfx = true ->
  text_safe ("- " ++ label ++ ": `" ++ elem ++ "`" ++ sfx) = true.
Proof.
  intros label elem sfx [-> | ->] He Hs; text_safe_solve.
Qed.

Lemma line_suffix_safe : forall o : option Z,
  no_term_hash (match o with
                | Some n => if (n =? 0)%Z then "" else " (line " ++ Z_to_string n ++ ")"
                | None => "" end) = true.
Proof.
  intros [n |]; [| reflexivity]. destruct (n =? 0)%Z; [reflexivity |].
  pose proof (Z_to_string_safe n) as Hz. set (zs := Z_to_string n) in *. clearbody zs.
  rewrite !no_term_hash_app, Hz. simpl. rewrite !andb_false_r. reflexivity.
Qed.

Lemma swcLines_safe : forall s,
  match s with Some m => swc_safe m | None => true end = true ->
  text_safe (swcLines s) = true.
Proof.
  intros [m |] H; [| reflexivity]. unfold swcLines. apply text_safe_join.
  apply Forall_forall. intros x Hx. apply filter_In in Hx as [Hx _]. revert x Hx.
  apply Forall_forall. unfold swc_safe in H.
  apply andb_true_iff in H as [H Hrefs]. apply andb_true_iff in H as [H Hrem].
  apply andb_true_iff in H as [Hid Htitle].
  repeat constructor.
  - destruct (swc_id m) as [i |]; [destruct (String.eqb i "") |]; text_safe_solve.
  - destruct (String.eqb (swc_remediation m) ""); [reflexivity | text_safe_solve].
  - destruct (swc_references m) as [| r rs]; [reflexivity |].
    assert (HJ : text_safe (join (String "010" "") (map (fun r => "  - " ++ r) (r :: rs))) = true).
    { apply text_safe_join. apply Forall_forall. intros x Hx.
      apply in_map_iff in Hx as [y [<- Hy]].
      assert (Hyn : no_term_hash y = true)
        by exact (proj1 (forallb_forall _ _) Hrefs y Hy).
      text_safe_solve. }
    set (J := join (String "010" "") (map (fun r => "  - " ++ r) (r :: rs))) in *.
    clearbody J. apply text_safe_iff in HJ as [HJ1 HJ2].
    unfold text_safe. rewrite no_term_hash_app, HJ1, HJ2. reflexivity.
Qed.

(** Each finding block is a ["## "] heading line followed by lines that
    do not start with ["#"]. *)
Lemma renderOne_lines : forall it, issue_safe it = true ->
  exists h T, split_lines (renderOne it) = ("## " ++ h) :: T /\
    Forall (fun l => starts_hash l = false) T.
Proof.
  intros it H. unfold issue_safe in H.
  apply andb_true_iff in H as [H Hswc]. apply andb_true_iff in H as [H Hlocs].
  apply andb_true_iff in H as [H Hdesc]. apply andb_true_iff in H as [Hcheck Hconf].
  destruct (risk_safe it Hdesc) as [Hrisk Hrem].
  unfold renderOne.
  destruct (risk_and_remediation it) as [risk rem] eqn:Er.
  simpl in Hrisk, Hrem. cbv beta iota zeta. cbn [app].
  rewrite split_lines_join. cbn [map concat].
  destruct (split_lines_hash2 (friendlyTitle (check it))) as [h [t [E1 E2]]].
  rewrite E2. eexists h, _. split; [reflexivity |].
  apply Forall_app. split.
  - change t with (tl (h :: t)). rewrite <- E1. apply lines_after_first.
    apply friendlyTitle_safe. exact Hcheck.
  - apply Forall_concat. apply Forall_map. apply Forall_forall. intros x Hx.
    apply text_safe_lines. revert x Hx. apply Forall_forall.
    apply Forall_app. split.
    + destruct (1 <? length (formatLocations (locations it)))%nat.
      * cbn [app]. constructor; [apply contract_line_safe; exact Hlocs |].
        constructor; [reflexivity |]. apply formatLocations_from_safe. exact Hlocs.
      * cbn [app]. constructor; [apply contract_line_safe; exact Hlocs |].
        constructor; [| constructor]. apply element_line_safe.
        -- match goal with
           | |- context [if ?b then "Function" else "Element"] => destruct b
           end; [left | right]; reflexivity.
        -- destruct (find _ _) as [l |] eqn:Ef; [| reflexivity].
           apply find_some in Ef as [Hin _].
           pose proof (proj1 (forallb_forall _ _) Hlocs l Hin) as Hl.
           unfold location_safe in Hl. apply andb_true_iff in Hl. apply Hl.
        -- apply line_suffix_safe.
    + repeat constructor; try (text_safe_solve); try reflexivity.
      apply swcLines_safe. exact Hswc.
Qed.

(** ** Counting sub-headings section by section *)

Lemma prefix_empty_l : forall s, prefix "" s = true.
Proof. intros [| c s]; reflexivity. Qed.

Lemma prefix_hash2 : forall h, prefix "## " ("## " ++ h) = true.
Proof. intros h. apply prefix_empty_l. Qed.

Lemma prefix_hash_false : forall l q, starts_hash l = false ->
  prefix (String "#" q) l = false.
Proof.
  intros [| c r] q H; [reflexivity |]. cbn [starts_hash] in H. cbn [prefix].
  destruct (ascii_dec "#" c) as [<- | _]; [discriminate H | reflexivity].
Qed.

Lemma body_line_not_heading : forall l sev, body_line l = true ->
  String.eqb l (heading_text sev) = false.
Proof.
  intros l sev H.
  destruct (String.eqb_spec l (heading_text sev)) as [-> | _]; [| reflexivity].
  unfold body_line, heading_text in H. simpl in H. discriminate H.
Qed.

Lemma count_plain_lines : forall p q T rest, p = String "#" q ->
  Forall (fun l => starts_hash l = false) T ->
  count_in_section p (T ++ rest) = count_in_section p rest.
Proof.
  intros p q T rest -> HT. induction HT as [| l T Hl HT IH]; [reflexivity |].
  cbn [app count_in_section]. unfold is_top_heading.
  rewrite (prefix_hash_false l (String " " "") Hl), (prefix_hash_false l q Hl).
  exact IH.
Qed.

Lemma count_heading_line : forall p h rest,
  count_in_section p (("## " ++ h) :: rest)
  = (if prefix p ("## " ++ h) then 1 else 0) + count_in_section p rest.
Proof. reflexivity. Qed.

Lemma count_empty_line : forall q rest,
  count_in_section (String "#" q) ("" :: rest) = count_in_section (String "#" q) rest.
Proof. reflexivity. Qed.

Lemma count_blocks : forall items rest, Forall (fun it => issue_safe it = true) items ->
  count_in_section "## " (concat (map (fun it => split_lines (renderOne it)) items) ++ rest)
  = length items + count_in_section "## " rest /\
  count_in_section "### " (concat (map (fun it => split_lines (renderOne it)) items) ++ rest)
  = count_in_section "### " rest.
Proof.
  intros items rest H.
  induction H as [| it items Hit Hr [IH1 IH2]]; [split; reflexivity |].
  cbn [map concat]. rewrite <- app_assoc.
  destruct (renderOne_lines it Hit) as [h [T [E HT]]]. rewrite E. cbn [app].
  split; rewrite count_heading_line.
  - rewrite (count_plain_lines _ "# " T _ eq_refl HT), IH1.
    rewrite prefix_hash2. reflexivity.
  - rewrite (count_plain_lines _ "## " T _ eq_refl HT), IH2.
    change (prefix "### " ("## " ++ h)) with false. reflexivity.
Qed.

Lemma blocks_body : forall items, Forall (fun it => issue_safe it = true) items ->
  Forall (fun l => body_line l = true)
    (concat (map (fun it => split_lines (renderOne it)) items)).
Proof.
  intros items H. apply Forall_concat, Forall_map.
  eapply Forall_impl; [| exact H]. intros it Hit.
  destruct (renderOne_lines it Hit) as [h [T [E HT]]]. rewrite E.
  constructor; [unfold body_line; rewrite prefix_hash2, orb_true_r; reflexivity |].
  eapply Forall_impl; [| exact HT]. intros l Hl. unfold body_line. rewrite Hl. reflexivity.
Qed.

Lemma subheadings_in_body : forall sev B rest, Forall (fun l => body_line l = true) B ->
  subheadings_in sev (B ++ rest) = subheadings_in sev rest.
Proof.
  intros sev B rest H. induction H as [| l B Hl HB IH]; [reflexivity |].
  cbn [app subheadings_in]. rewrite body_line_not_heading by exact Hl. exact IH.
Qed.

Lemma heading_text_neq : forall s sev, In s severities -> In sev severities -> s <> sev ->
  String.eqb (heading_text s) (heading_text sev) = false.
Proof.
  intros s sev Hs Hsev Hne. cbn [In severities] in Hs, Hsev.
  destruct Hs as [<- | [<- | [<- | [<- | []]]]];
    destruct Hsev as [<- | [<- | [<- | [<- | []]]]];
    try (exfalso; apply Hne; reflexivity); reflexivity.
Qed.

(** A document made of one section per severity of [present], each a
    heading, an empty line and a body of [N s] sub-headings. *)
Lemma subheadings_in_sections : forall (Bod : string -> list string) (N : string -> nat)
  present sev,
  (forall s, In s present -> In s severities) -> In sev severities ->
  (forall s, In s present -> Forall (fun l => body_line l = true) (Bod s)) ->
  (forall s rest, In s present ->
     (forall l r, rest = l :: r -> is_top_heading l = true) ->
     count_in_section "## " (Bod s ++ rest) = N s /\
     count_in_section "### " (Bod s ++ rest) = 0) ->
  subheadings_in sev (concat (map (fun s => heading_text s :: "" :: Bod s) present))
  = if existsb (String.eqb sev) present then Some (N sev) else None.
Proof.
  intros Bod N present sev. induction present as [| s ps IH];
    intros Hsev Hin Hbody Hcount; [reflexivity |].
  cbn [map concat app existsb subheadings_in].
  destruct (String.eqb_spec s sev) as [<- | Hne].
  - rewrite !String.eqb_refl. cbn [orb].
    assert (Htop : forall l r,
              concat (map (fun s => heading_text s :: "" :: Bod s) ps) = l :: r ->
              is_top_heading l = true).
    { intros l r E. destruct ps as [| s' ps']; [discriminate E |].
      cbn [map concat app] in E. injection E as <- _. apply prefix_empty_l. }
    destruct (Hcount s _ (or_introl eq_refl) Htop) as [C1 C2].
    rewrite !count_empty_line, C1, C2, Nat.max_0_r. reflexivity.
  - rewrite (heading_text_neq s sev (Hsev s (or_introl eq_refl)) Hin Hne).
    rewrite (body_line_not_heading "" sev eq_refl).
    rewrite (proj2 (String.eqb_neq sev s) (not_eq_sym Hne)). cbn [orb].
    rewrite subheadings_in_body by (apply Hbody; left; reflexivity).
    apply IH; auto.
    + intros s' Hs'. apply Hsev. right. exact Hs'.
    + intros s' Hs'. apply Hbody. right. exact Hs'.
    + intros s' rest Hs'. apply Hcount. right. exact Hs'.
Qed.

Lemma section_split : forall sev body, In sev severities ->
  split_lines ("# " ++ sev ++ " Impact Findings

" ++ body) = heading_text sev :: "" :: split_lines body.
Proof.
  intros sev body Hs. cbn [In severities] in Hs.
  destruct Hs as [<- | [<- | [<- | [<- | []]]]]; reflexivity.
Qed.

Lemma subheadings_plain : forall s sev, text_safe s = true -> subheadings_under s sev = None.
Proof.
  intros s sev H. unfold subheadings_under. rewrite <- (app_nil_r (split_lines s)).
  rewrite subheadings_in_body; [reflexivity |].
  eapply Forall_impl; [| exact (text_safe_lines s H)].
  intros l Hl. unfold body_line. rewrite Hl. reflexivity.
Qed.

Lemma no_vulnerabilities_safe : forall a, no_term_hash a = true ->
  text_safe (no_vulnerabilities a) = true.
Proof. intros a Ha. unfold no_vulnerabilities. text_safe_solve. Qed.

Lemma existsb_filter_member : forall (f : string -> bool) l k, In k l ->
  existsb (String.eqb k) (filter f l) = f k.
Proof.
  intros f l k Hk. destruct (f k) eqn:Ef.
  - apply existsb_eqb_In, filter_In. split; assumption.
  - destruct (existsb (String.eqb k) (filter f l)) eqn:E; [| reflexivity].
    apply existsb_eqb_In, filter_In in E as [_ E]. congruence.
Qed.

(** C6 (amended).  When every finding carries one of the four severities,
    and neither the address nor any free-text field that the renderer
    copies into a finding block (check identifier, confidence, description,
    location files and elements, SWC fields) has a line terminator directly
    followed by ["#"], the rendered document has, for each severity, as many
    sub-headings under that severity's top-level heading as the input has
    findings of that severity, and no top-level heading for a severity with
    no findings. *)
Theorem render_subheadings_match_counts : forall address items,
  Forall (fun it => In (impact it) severities) items ->
  no_term_hash address = true ->
  Forall (fun it => issue_safe it = true) items ->
  exists md, renderMarkdownDeterministic address items = Some md /\
    forall sev, In sev severities ->
      subheadings_under md sev =
      (if Nat.eqb (count_impact items sev) 0 then None
       else Some (count_impact items sev)).
Proof.
  intros address items Hsev Haddr Hsafe.
  assert (Hp : Forall (fun it => is_proto_member (impact it) = false) items).
  { eapply Forall_impl; [| exact Hsev]. intros it Hin. cbn [In severities] in Hin.
    destruct Hin as [E | [E | [E | [E | []]]]]; rewrite <- E; reflexivity. }
  destruct (byImpact_spec items Hp) as [b [Eb Hb]].
  unfold renderMarkdownDeterministic. rewrite Eb.
  eexists. split; [reflexivity |]. intros sev Hin.
  assert (Hcount : forall s, length (bucket_of b s) = count_impact items s)
    by (intros s; rewrite Hb; reflexivity).
  assert (Hbsafe : forall s, Forall (fun it => issue_safe it = true) (bucket_of b s)).
  { intros s. rewrite Hb. apply Forall_forall. intros it Hit.
    apply filter_In in Hit as [Hit _]. exact (proj1 (Forall_forall _ _) Hsafe it Hit). }
  rewrite <- !Hcount.
  unfold render_sections.
  remember (filter (fun s => negb (Nat.eqb (length (bucket_of b s)) 0)) severities)
    as present eqn:Ep.
  assert (Hmem : forall s, In s present <-> In s severities /\ length (bucket_of b s) <> 0).
  { intros s. rewrite Ep, filter_In, negb_true_iff, Nat.eqb_neq. reflexivity. }
  destruct present as [| p0 ps].
  - (* no finding: the fallback sentence, which has no heading *)
    assert (Hz : length (bucket_of b sev) = 0).
    { destruct (Nat.eq_dec (length (bucket_of b sev)) 0) as [Hz | Hz]; [exact Hz |].
      destruct (proj2 (Hmem sev) (conj Hin Hz)). }
    rewrite Hz. cbn [map join String.eqb].
    apply subheadings_plain, no_vulnerabilities_safe. exact Haddr.
  - (* one section per present severity *)
    set (Bod := fun s => concat (map (fun it => split_lines (renderOne it)) (bucket_of b s))).
    match goal with
    | |- context [join ?sep (map ?f (p0 :: ps))] => set (SEC := f)
    end.
    assert (Hlines : split_lines (join (String "010" "") (map SEC (p0 :: ps)))
                     = concat (map (fun s => heading_text s :: "" :: Bod s) (p0 :: ps))).
    { rewrite split_lines_join_map. f_equal. apply map_ext_in. intros s Hs.
      apply Hmem in Hs as [Hs Hn]. subst SEC. cbv beta.
      rewrite section_split by exact Hs. do 2 f_equal. subst Bod. cbv beta.
      destruct (bucket_of b s) as [| it0 r]; [destruct (Hn eq_refl) |].
      apply split_lines_join_map. }
    assert (Hne : String.eqb (join (String "010" "") (map SEC (p0 :: ps))) "" = false).
    { destruct (String.eqb_spec (join (String "010" "") (map SEC (p0 :: ps))) "")
        as [E | _]; [| reflexivity].
      rewrite E in Hlines. cbn [map concat app] in Hlines.
      injection Hlines as Hh _. unfold heading_text in Hh. discriminate Hh. }
    rewrite Hne. unfold subheadings_under. rewrite Hlines.
    rewrite (subheadings_in_sections Bod (fun s => length (bucket_of b s))).
    + rewrite Ep, existsb_filter_member by exact Hin.
      destruct (Nat.eqb (length (bucket_of b sev)) 0); reflexivity.
    + intros s Hs. apply Hmem in Hs. apply Hs.
    + exact Hin.
    + intros s _. apply blocks_body. apply Hbsafe.
    + intros s rest _ Htop.
      assert (Hr : count_in_section "## " rest = 0 /\ count_in_section "### " rest = 0).
      { destruct rest as [| l r]; [split; reflexivity |].
        cbn [count_in_section]. rewrite (Htop l r eq_refl). split; reflexivity. }
      destruct (count_blocks (bucket_of b s) rest (Hbsafe s)) as [C1 C2].
      subst Bod. cbv beta. rewrite C1, C2, (proj1 Hr), (proj2 Hr), Nat.add_0_r.
      split; reflexivity.
Qed.

Lemma render_subheadings_match_counts_witness :
  exists md, renderMarkdownDeterministic "0xABC" two_high_one_medium = Some md /\
    subheadings_under md "High" = Some 2%nat /\
    subheadings_under md "Medium" = Some 1%nat /\
    subheadings_under md "Low" = None.
Proof.
  assert (H1 : Forall (fun it => In (impact it) severities) two_high_one_medium).
  { apply Forall_forall. intros it Hit. cbn [In two_high_one_medium] in Hit.
    destruct Hit as [<- | [<- | [<- | []]]]; vm_compute; auto. }
  assert (H2 : no_term_hash "0xABC" = true) by reflexivity.
  assert (H3 : Forall (fun it => issue_safe it = true) two_high_one_medium).
  { apply Forall_forall. intros it Hit. cbn [In two_high_one_medium] in Hit.
    destruct Hit as [<- | [<- | [<- | []]]]; vm_compute; reflexivity. }
  destruct (render_subheadings_match_counts "0xABC" two_high_one_medium H1 H2 H3)
    as [md [E H]].
  exists md. split; [exact E |].
  rewrite !H by (vm_compute; auto). vm_compute. split; [| split]; reflexivity.
Defined.

(** An impact outside the four severities that is not an
    [Object.prototype] member name gets its own bucket, which no section
    renders: the finding is left out of the report. *)
Lemma render_unknown_impact_dropped :
  renderMarkdownDeterministic "0xABC" [optimization_finding]
  = Some (no_vulnerabilities "0xABC").
Proof. vm_compute. reflexivity. Qed.

(* ------------------------------------------------------------------ *)
(** ** Further properties of the deduplicator and the location list *)

Lemma uniqueLocations_from_NoDup : forall A s,
  NoDup (map loc_key (uniqueLocations_from s A)) /\
  (forall k, In k (map loc_key (uniqueLocations_from s A)) -> ~ In k s).
Proof.
  induction A as [| a r IH]; intros s; simpl; [split; [constructor | tauto] |].
  destruct (existsb (String.eqb (loc_key a)) s) eqn:E; [apply IH |].
  destruct (IH (loc_key a :: s)) as [Hnd Hdis]. simpl. split.
  - constructor; [| exact Hnd]. intros Hin. apply (Hdis _ Hin). left. reflexivity.
  - intros k [<- | Hk] Hks.
    + apply existsb_eqb_In in Hks. congruence.
    + apply (Hdis k Hk). right. exact Hks.
Qed.

Lemma uniqueLocations_from_filter : forall B t s,
  uniqueLocations_from (t ++ s) B =
  uniqueLocations_from t
    (filter (fun l => negb (existsb (String.eqb (loc_key l)) s)) B).
Proof.
  induction B as [| b r IH]; intros t s; simpl; [reflexivity |].
  rewrite existsb_app.
  destruct (existsb (String.eqb (loc_key b)) s) eqn:Es; simpl.
  - rewrite orb_true_r. apply IH.
  - rewrite orb_false_r.
    destruct (existsb (String.eqb (loc_key b)) t); [apply IH |].
    f_equal. apply (IH (loc_key b :: t) s).
Qed.

(** X1.  [uniqueLocations] keeps one location per key: the keys of its
    result are pairwise distinct and are exactly the keys of its input. *)
Theorem uniqueLocations_keys : forall locs,
  NoDup (map loc_key (uniqueLocations locs)) /\
  (forall k, In k (map loc_key (uniqueLocations locs)) <-> In k (map loc_key locs)).
Proof.
  intros locs. split; [apply (uniqueLocations_from_NoDup locs []) |].
  intros k. pose proof (uniqueLocations_from_keys locs [] k) as H.
  simpl in H. unfold uniqueLocations. tauto.
Qed.

(** X2.  Deduplicating an already deduplicated list changes nothing. *)
Theorem uniqueLocations_idempotent : forall locs,
  uniqueLocations (uniqueLocations locs) = uniqueLocations locs.
Proof. intros locs. apply uniqueLocations_from_idem. Qed.

(** X3.  Deduplicating [A ++ B] gives the deduplicated [A], followed by the
    deduplicated locations of [B] whose key does not occur in [A]. *)
Theorem uniqueLocations_app : forall A B,
  uniqueLocations (A ++ B)%list =
  (uniqueLocations A ++
   uniqueLocations
     (filter (fun l => negb (existsb (String.eqb (loc_key l)) (map loc_key A))) B))%list.
Proof.
  intros A B. unfold uniqueLocations. rewrite uniqueLocations_from_app, app_nil_r.
  f_equal. apply (uniqueLocations_from_filter B [] (map loc_key A)).
Qed.

Lemma formatLocations_from_rows : forall locs seen,
  formatLocations_from seen locs = map location_row (uniqueLocations_from seen locs).
Proof.
  induction locs as [| l r IH]; intros seen; simpl; [reflexivity |].
  destruct (existsb (String.eqb (loc_key l)) seen); [apply IH |].
  simpl. f_equal. apply IH.
Qed.

(** X4.  [formatLocations] prints one row per location of the
    deduplicated list, in its order. *)
Theorem formatLocations_rows : forall locs,
  formatLocations locs = map location_row (uniqueLocations locs).
Proof. intros locs. apply formatLocations_from_rows. Qed.

(* ------------------------------------------------------------------ *)
(** ** Further properties of the grouper *)

Lemma merge_members_shape : forall items s g,
  In g (merge_members (group_members items s)) ->
  exists first, In first (group_members items s) /\
    g = with_locations first
          (uniqueLocations (concat (map locations (group_members items s)))).
Proof.
  intros items s g Hg. unfold merge_members in Hg.
  destruct (group_members items s) as [| first rest] eqn:E; [destruct Hg |].
  destruct Hg as [<- | []]. exists first. split; [left; reflexivity | reflexivity].
Qed.

Lemma group_members_eligible : forall items s it,
  In it (group_members items s) -> eligible it = true.
Proof.
  intros items s it H. unfold group_members in H. apply filter_In in H as [_ H].
  apply andb_true_iff in H. apply H.
Qed.

(** Every finding of the grouped part is a [missing-zero-check] finding. *)
Lemma grouped_part_eligible : forall items g,
  In g (flat_map (fun s => merge_members (group_members items s)) (primary_symbols items)) ->
  eligible g = true.
Proof.
  intros items g Hg. apply in_flat_map in Hg as [s [_ Hg]].
  destruct (merge_members_shape items s g Hg) as [first [Hf ->]].
  exact (group_members_eligible items s first Hf).
Qed.

Lemma filter_idem : forall (A : Type) (f : A -> bool) l, filter f (filter f l) = filter f l.
Proof.
  intros A f l. apply forallb_filter_id. apply forallb_forall.
  intros x Hx. apply filter_In in Hx. apply Hx.
Qed.

Lemma first_seen_length : forall l seen, length (first_seen seen l) <= length l.
Proof.
  induction l as [| a r IH]; intros seen; simpl; [lia |].
  destruct (existsb (String.eqb a) seen);
    [specialize (IH seen) | specialize (IH (a :: seen)); simpl]; lia.
Qed.

Lemma filter_none : forall (A : Type) (f : A -> bool) l,
  (forall x, In x l -> f x = false) -> filter f l = [].
Proof.
  intros A f l H. destruct (filter f l) as [| x r] eqn:E; [reflexivity |].
  assert (Hx : In x (filter f l)) by (rewrite E; left; reflexivity).
  apply filter_In in Hx as [Hx Hfx]. rewrite (H x Hx) in Hfx. discriminate.
Qed.

Lemma filter_partition_length : forall (A : Type) (f : A -> bool) l,
  length (filter (fun x => negb (f x)) l) + length (filter f l) = length l.
Proof.
  intros A f l. induction l as [| a r IH]; simpl; [reflexivity |].
  destruct (f a); simpl; lia.
Qed.

Lemma flat_map_singletons_length : forall (A B : Type) (f : A -> list B) l,
  (forall x, In x l -> length (f x) = 1) -> length (flat_map f l) = length l.
Proof.
  intros A B f l H. induction l as [| a r IH]; simpl; [reflexivity |].
  rewrite length_app, (H a (or_introl eq_refl)), IH; [reflexivity |].
  intros x Hx. apply H. right. exact Hx.
Qed.

(** X5.  A list with no [missing-zero-check] finding is returned as it is. *)
Theorem group_without_zero_check_identity : forall items,
  Forall (fun it => check it <> "missing-zero-check") items ->
  groupByCheckAndElement items = items.
Proof.
  intros items H. rewrite groupByCheckAndElement_spec. unfold grouping_by_symbol.
  assert (He : forall it, In it items -> eligible it = false).
  { intros it Hit. unfold eligible. apply String.eqb_neq.
    exact (proj1 (Forall_forall _ _) H it Hit). }
  assert (Hp : primary_symbols items = []).
  { unfold primary_symbols. rewrite (filter_none _ eligible items He). reflexivity. }
  rewrite Hp, app_nil_r. apply forallb_filter_id, forallb_forall.
  intros it Hit. rewrite (He it Hit). reflexivity.
Qed.

Lemma group_without_zero_check_identity_witness :
  groupByCheckAndElement [high_1; medium_1] = [high_1; medium_1].
Proof.
  apply group_without_zero_check_identity.
  apply Forall_forall. intros it Hit. destruct Hit as [<- | [<- | []]];
    intros E; vm_compute in E; discriminate E.
Defined.

(** X6.  The grouper passes every other finding through unchanged and in
    input order: the non-[missing-zero-check] findings of its result are
    exactly those of its input. *)
Theorem group_passthrough_unchanged : forall items,
  filter (fun it => negb (eligible it)) (groupByCheckAndElement items) =
  filter (fun it => negb (eligible it)) items.
Proof.
  intros items. rewrite groupByCheckAndElement_spec. unfold grouping_by_symbol.
  rewrite filter_app, filter_idem.
  rewrite (filter_none _ _ (flat_map _ (primary_symbols items))), app_nil_r;
    [reflexivity |].
  intros g Hg. rewrite (grouped_part_eligible items g Hg). reflexivity.
Qed.

(** X7.  Grouping never adds findings. *)
Theorem group_length_le : forall items,
  length (groupByCheckAndElement items) <= length items.
Proof.
  intros items. rewrite groupByCheckAndElement_spec. unfold grouping_by_symbol.
  rewrite length_app, flat_map_singletons_length.
  - pose proof (filter_partition_length _ eligible items) as Hpart.
    pose proof (first_seen_length
                  (map (fun it => first_element (locations it)) (filter eligible items)) [])
      as Hfs.
    rewrite length_map in Hfs. unfold primary_symbols. lia.
  - intros s Hs. apply primary_symbols_In in Hs.
    unfold merge_members. destruct (group_members items s); [contradiction | reflexivity].
Qed.

(** X8.  Each merged [missing-zero-check] finding has pairwise distinct
    location keys. *)
Theorem group_merged_locations_distinct : forall items g,
  In g (groupByCheckAndElement items) -> eligible g = true ->
  NoDup (map loc_key (locations g)).
Proof.
  intros items g Hg He. rewrite groupByCheckAndElement_spec in Hg.
  unfold grouping_by_symbol in Hg. apply in_app_or in Hg as [Hg | Hg].
  - apply filter_In in Hg as [_ Hg]. rewrite He in Hg. discriminate.
  - apply in_flat_map in Hg as [s [_ Hg]].
    destruct (merge_members_shape items s g Hg) as [first [_ ->]].
    apply uniqueLocations_keys.
Qed.

Lemma group_merged_locations_distinct_witness :
  NoDup (map loc_key (locations
    (nth 0 (groupByCheckAndElement [zero_check_unnamed_first; zero_check_named])
         zero_check_named))).
Proof.
  apply (group_merged_locations_distinct [zero_check_unnamed_first; zero_check_named]).
  - vm_compute. left. reflexivity.
  - vm_compute. reflexivity.
Defined.

(** X9.  No location key of a [missing-zero-check] finding is lost: it
    appears among the locations of some merged [missing-zero-check]
    finding of the result. *)
Theorem group_keeps_location_keys : forall items it l,
  In it items -> eligible it = true -> In l (locations it) ->
  exists g, In g (groupByCheckAndElement items) /\ eligible g = true /\
    In (loc_key l) (map loc_key (locations g)).
Proof.
  intros items it l Hit He Hl. rewrite groupByCheckAndElement_spec.
  set (s := first_element (locations it)).
  assert (Hm : In it (group_members items s)).
  { unfold group_members. apply filter_In. split; [exact Hit |].
    rewrite He, String.eqb_refl. reflexivity. }
  assert (Hs : In s (primary_symbols items)).
  { apply primary_symbols_In. intros E. rewrite E in Hm. exact Hm. }
  destruct (group_members items s) as [| first rest] eqn:Eg; [destruct Hm |].
  exists (with_locations first (uniqueLocations (concat (map locations (first :: rest))))).
  split; [| split].
  - unfold grouping_by_symbol. apply in_or_app. right. apply in_flat_map.
    exists s. split; [exact Hs |]. rewrite Eg. left. reflexivity.
  - change (eligible first = true). apply (group_members_eligible items s).
    rewrite Eg. left. reflexivity.
  - apply (proj2 (uniqueLocations_keys _) (loc_key l)). apply in_map.
    apply in_concat. exists (locations it). split; [apply in_map; exact Hm | exact Hl].
Qed.

Lemma group_keeps_location_keys_witness :
  exists g, In g (groupByCheckAndElement [zero_check_unnamed_first; zero_check_named]) /\
    eligible g = true /\
    In (loc_key (mkLocation "src/V.sol" (Some 9%Z) "yourAddress")) (map loc_key (locations g)).
Proof.
  apply (group_keeps_location_keys _ zero_check_unnamed_first).
  - left. reflexivity.
  - vm_compute. reflexivity.
  - vm_compute. right. left. reflexivity.
Defined.

(* ------------------------------------------------------------------ *)
(** ** Further properties of the validator's parts *)

Lemma countsByImpact_fold : forall items acc k,
  fold_left (fun acc it k => if String.eqb k (impact it) then S (acc k) else acc k)
            items acc k = acc k + count_impact items k.
Proof.
  induction items as [| it r IH]; intros acc k; simpl; [unfold count_impact; simpl; lia |].
  rewrite IH. unfold count_impact. simpl. rewrite String.eqb_sym.
  destruct (String.eqb (impact it) k); simpl; lia.
Qed.

(** X10.  [countsByImpact] gives each of the four severities the number of
    findings with exactly that impact. *)
Theorem countsByImpact_counts : forall items sev, In sev severities ->
  countsByImpact items sev = count_impact items sev.
Proof.
  intros items sev _. unfold countsByImpact. rewrite countsByImpact_fold. reflexivity.
Qed.

Lemma countsByImpact_counts_witness :
  countsByImpact two_high_one_medium "High" = 2%nat.
Proof.
  rewrite countsByImpact_counts by (left; reflexivity). vm_compute. reflexivity.
Defined.

Lemma prefix_app : forall p s t, prefix p s = true -> prefix p (s ++ t) = true.
Proof.
  induction p as [| a p IH]; intros s t H; [apply prefix_empty_l |].
  destruct s as [| b s]; [discriminate H |].
  cbn [prefix append] in *. destruct (ascii_dec a b); [apply IH; exact H | discriminate H].
Qed.

Lemma drop_prefix_app : forall p s t, prefix p s = true ->
  drop_prefix p (s ++ t) = (drop_prefix p s ++ t)%string.
Proof.
  induction p as [| a p IH]; intros s t H; [reflexivity |].
  destruct s as [| b s]; [discriminate H |].
  cbn [prefix] in H. cbn [drop_prefix append].
  destruct (ascii_dec a b); [apply IH; exact H | discriminate H].
Qed.

Lemma close_on_line_app : forall s t, close_on_line s = true -> close_on_line (s ++ t) = true.
Proof.
  induction s as [| c r IH]; intros t H; [discriminate H |].
  cbn [close_on_line append] in *.
  destruct ((c =? ")")%char); [reflexivity |].
  destruct (is_term c); [discriminate H | apply IH; exact H].
Qed.

Lemma anchor_tail_app : forall s t, anchor_tail s = true -> anchor_tail (s ++ t) = true.
Proof.
  intros [| c r] t H; [discriminate H |]. cbn [anchor_tail append] in *.
  apply andb_true_iff in H as [H1 H2]. rewrite H1, (close_on_line_app r t H2). reflexivity.
Qed.

Lemma containsForbiddenAnchors_cons : forall c r,
  containsForbiddenAnchors (String c r) =
  (prefix "](#" (String c r) && anchor_tail (drop_prefix "](#" (String c r)))
  || containsForbiddenAnchors r.
Proof. reflexivity. Qed.

(** X12.  Text around a forbidden anchor never hides it: if either part
    contains one, so does their concatenation. *)
Theorem containsForbiddenAnchors_app : forall a b,
  containsForbiddenAnchors a = true \/ containsForbiddenAnchors b = true ->
  containsForbiddenAnchors (a ++ b) = true.
Proof.
  induction a as [| c r IH]; intros b H.
  - destruct H as [H | H]; [discriminate H | exact H].
  - change (String c r ++ b) with (String c (r ++ b)).
    rewrite containsForbiddenAnchors_cons.
    destruct H as [H | H].
    + rewrite containsForbiddenAnchors_cons in H.
      apply orb_true_iff in H as [H | H].
      * apply andb_true_iff in H as [Hp Ht].
        change (String c (r ++ b)) with (String c r ++ b).
        rewrite (prefix_app _ _ _ Hp), (drop_prefix_app _ _ _ Hp),
          (anchor_tail_app _ _ Ht). reflexivity.
      * rewrite (IH b (or_introl H)), orb_true_r. reflexivity.
    + rewrite (IH b (or_intror H)), orb_true_r. reflexivity.
Qed.

Lemma containsForbiddenAnchors_app_witness :
  containsForbiddenAnchors ("See [the guide](#setup)" ++ " for details.") = true.
Proof.
  apply containsForbiddenAnchors_app. left. vm_compute. reflexivity.
Defined.

(* ------------------------------------------------------------------ *)
(** ** Further properties of the Deterministic Renderer and [runAudit] *)

Ltac proto_free_solve :=
  repeat (apply Forall_cons; [vm_compute; reflexivity |]); apply Forall_nil.

Lemma render_sections_ext : forall b b',
  (forall sev, In sev severities -> bucket_of b sev = bucket_of b' sev) ->
  render_sections b = render_sections b'.
Proof.
  intros b b' H. unfold render_sections.
  rewrite (filter_ext_in _ (fun sev => negb (Nat.eqb (length (bucket_of b' sev)) 0)))
    by (intros sev Hs; rewrite (H sev Hs); reflexivity).
  f_equal. apply map_ext_in. intros sev Hs. apply filter_In in Hs as [Hs _].
  rewrite (H sev Hs). reflexivity.
Qed.

Lemma bucket_nonempty : forall items it, In it items ->
  negb (Nat.eqb (length (filter (fun x => String.eqb (impact x) (impact it)) items)) 0)
  = true.
Proof.
  intros items it Hin.
  destruct (filter (fun x => String.eqb (impact x) (impact it)) items) as [| y r] eqn:E;
    [| reflexivity].
  exfalso.
  assert (Hf : In it (filter (fun x => String.eqb (impact x) (impact it)) items))
    by (apply filter_In; split; [exact Hin | apply String.eqb_refl]).
  rewrite E in Hf. destruct Hf.
Qed.

Lemma prefix_refl : forall s, prefix s s = true.
Proof.
  induction s as [| a s IH]; [reflexivity |]. cbn [prefix].
  destruct (ascii_dec a a) as [_ | n]; [exact IH | contradiction n; reflexivity].
Qed.

Lemma includes_prefix : forall s sub, prefix sub s = true -> includes s sub = true.
Proof. intros [| c r] sub H; cbn [includes]; rewrite H; reflexivity. Qed.

Lemma includes_cons : forall c r sub, includes r sub = true -> includes (String c r) sub = true.
Proof. intros c r sub H. cbn [includes]. destruct (prefix sub (String c r)); [reflexivity | exact H]. Qed.

Lemma includes_app_l : forall a b sub, includes a sub = true -> includes (a ++ b) sub = true.
Proof.
  induction a as [| c r IH]; intros b sub H.
  - cbn [includes] in H. destruct (prefix sub "") eqn:E; [| discriminate H].
    apply includes_prefix. exact (prefix_app _ _ b E).
  - cbn [includes] in H. destruct (prefix sub (String c r)) eqn:E.
    + apply includes_prefix. exact (prefix_app _ _ b E).
    + change (String c r ++ b) with (String c (r ++ b)).
      apply includes_cons. apply IH. exact H.
Qed.

Lemma includes_app_r : forall a b sub, includes b sub = true -> includes (a ++ b) sub = true.
Proof.
  induction a as [| c r IH]; intros b sub H; [exact H |].
  change (String c r ++ b) with (String c (r ++ b)). apply includes_cons. apply IH. exact H.
Qed.

Lemma includes_join : forall sep xs x sub,
  In x xs -> includes x sub = true -> includes (join sep xs) sub = true.
Proof.
  intros sep. induction xs as [| y r IH]; intros x sub Hin H; [destruct Hin |].
  destruct r as [| z r'].
  - destruct Hin as [<- | []]. exact H.
  - change (join sep (y :: z :: r')) with (y ++ sep ++ join sep (z :: r')).
    destruct Hin as [<- | Hin]; [apply includes_app_l; exact H |].
    apply includes_app_r, includes_app_r. exact (IH x sub Hin H).
Qed.

Lemma renderOne_writes_after_call : forall it,
  check it = "reentrancy-no-eth" \/ check it = "reentrancy-benign" ->
  includes (renderOne it) writes_after_call_sentence = true.
Proof.
  intros it Hc.
  assert (Hr : exists R M, risk_and_remediation it = (R, M) /\
                 includes R writes_after_call_sentence = true).
  { unfold risk_and_remediation.
    destruct Hc as [Hc | Hc]; rewrite Hc; eexists _, _;
      (split; [reflexivity | vm_compute; reflexivity]). }
  destruct Hr as (R & M & Hrm & HR).
  unfold renderOne. rewrite Hrm. cbv beta iota zeta.
  apply (includes_join _ _ ("- Issue: " ++ R)).
  - apply in_or_app. right. apply in_or_app. right. cbn [In]. right. left. reflexivity.
  - apply includes_app_r. exact HR.
Qed.

(** X13.  The Deterministic Renderer reads a finding list only through
    its four per-severity sublists: two lists without [Object.prototype]
    impacts that agree on each severity's findings, in order, render the
    same report, however findings of different severities interleave and
    whatever findings of other impacts they hold. *)
Theorem render_depends_on_severity_sublists : forall address items items',
  Forall (fun it => is_proto_member (impact it) = false) items ->
  Forall (fun it => is_proto_member (impact it) = false) items' ->
  (forall sev, In sev severities ->
     filter (fun it => String.eqb (impact it) sev) items =
     filter (fun it => String.eqb (impact it) sev) items') ->
  renderMarkdownDeterministic address items = renderMarkdownDeterministic address items'.
Proof.
  intros address items items' Hf Hf' Heq.
  destruct (byImpact_spec items Hf) as [b [Eb Hb]].
  destruct (byImpact_spec items' Hf') as [b' [Eb' Hb']].
  unfold renderMarkdownDeterministic. rewrite Eb, Eb'.
  rewrite (render_sections_ext b b'); [reflexivity |].
  intros sev Hs. rewrite Hb, Hb'. exact (Heq sev Hs).
Qed.

Lemma render_depends_on_severity_sublists_witness :
  renderMarkdownDeterministic "0xABC" [high_1; medium_1; optimization_finding] =
  renderMarkdownDeterministic "0xABC" [medium_1; high_1].
Proof.
  apply render_depends_on_severity_sublists; [proto_free_solve | proto_free_solve |].
  intros sev Hs. cbn [In severities] in Hs.
  destruct Hs as [<- | [<- | [<- | [<- | []]]]]; vm_compute; reflexivity.
Defined.

(** X14.  For a list without [Object.prototype] impacts, the renderer
    answers with the "no vulnerabilities" line exactly when no finding has
    one of the four severities as its impact. *)
Theorem render_no_vulnerabilities_iff : forall address items,
  Forall (fun it => is_proto_member (impact it) = false) items ->
  (renderMarkdownDeterministic address items = Some (no_vulnerabilities address) <->
   Forall (fun it => ~ In (impact it) severities) items).
Proof.
  intros address items Hf. destruct (byImpact_spec items Hf) as [b [Eb Hb]].
  unfold renderMarkdownDeterministic. rewrite Eb. cbv beta iota zeta. split.
  - intros H. apply Forall_forall. intros it Hin Hsev.
    assert (Hne : exists rest, render_sections b = String "#" rest).
    { unfold render_sections.
      destruct (filter (fun sev => negb (Nat.eqb (length (bucket_of b sev)) 0)) severities)
        as [| s0 r] eqn:E.
      - exfalso.
        assert (Hi : In (impact it)
                   (filter (fun sev => negb (Nat.eqb (length (bucket_of b sev)) 0))
                      severities))
          by (apply filter_In; split; [exact Hsev | rewrite Hb; apply bucket_nonempty; exact Hin]).
        rewrite E in Hi. destruct Hi.
      - destruct r; eexists; reflexivity. }
    destruct Hne as [rest Hr]. rewrite Hr in H.
    change (String.eqb (String "#" rest) "") with false in H.
    injection H as H. unfold no_vulnerabilities in H. discriminate H.
  - intros H.
    assert (Hz : filter (fun sev => negb (Nat.eqb (length (bucket_of b sev)) 0))
                   severities = []).
    { apply filter_none. intros sev Hsev. cbv beta. rewrite Hb.
      rewrite (filter_none _ _ items); [reflexivity |].
      intros it Hit. destruct (String.eqb_spec (impact it) sev) as [E | _]; [| reflexivity].
      exfalso. rewrite Forall_forall in H. apply (H it Hit). rewrite E. exact Hsev. }
    unfold render_sections. rewrite Hz. reflexivity.
Qed.

Lemma render_no_vulnerabilities_iff_witness :
  renderMarkdownDeterministic "0xABC" [optimization_finding] =
  Some (no_vulnerabilities "0xABC").
Proof.
  apply (render_no_vulnerabilities_iff "0xABC" [optimization_finding]);
    [proto_free_solve |].
  constructor; [| constructor]. vm_compute.
  intros H. repeat (destruct H as [H | H]; [discriminate H |]). exact H.
Defined.

(** X15.  A reentrancy finding ([reentrancy-no-eth] or
    [reentrancy-benign]) with one of the four severities makes the
    deterministic report carry the sentence the validator requires. *)
Theorem render_includes_writes_after_call : forall address items it,
  Forall (fun x => is_proto_member (impact x) = false) items ->
  In it items -> In (impact it) severities ->
  check it = "reentrancy-no-eth" \/ check it = "reentrancy-benign" ->
  exists md, renderMarkdownDeterministic address items = Some md /\
             includes md writes_after_call_sentence = true.
Proof.
  intros address items it Hf Hin Hsev Hc.
  destruct (byImpact_spec items Hf) as [b [Eb Hb]].
  assert (Hs : includes (render_sections b) writes_after_call_sentence = true).
  { unfold render_sections. eapply includes_join.
    - apply in_map. apply filter_In. split; [exact Hsev |].
      rewrite Hb. apply bucket_nonempty. exact Hin.
    - apply includes_app_r, includes_app_r, includes_app_r.
      apply (includes_join _ _ (renderOne it)).
      + apply in_map. rewrite Hb. apply filter_In.
        split; [exact Hin | apply String.eqb_refl].
      + apply renderOne_writes_after_call. exact Hc. }
  exists (render_sections b). unfold renderMarkdownDeterministic. rewrite Eb.
  cbv beta iota zeta.
  destruct (String.eqb_spec (render_sections b) "") as [E | _].
  - rewrite E in Hs. discriminate Hs.
  - split; [reflexivity | exact Hs].
Qed.

Lemma render_includes_writes_after_call_witness :
  exists md, renderMarkdownDeterministic "0xABC" [high_1; benign_low] = Some md /\
             includes md writes_after_call_sentence = true.
Proof.
  apply (render_includes_writes_after_call "0xABC" [high_1; benign_low] benign_low).
  - proto_free_solve.
  - right. left. reflexivity.
  - vm_compute. right. right. left. reflexivity.
  - right. reflexivity.
Defined.

(** X16.  When no finding's impact is an [Object.prototype] member name,
    [runAudit] ends in a report, never an error, in deterministic mode and
    whenever the generator answers with a JSON body whose [response] is a
    string, absent or [null]. *)
Theorem runAudit_ok_without_prototype_impacts : forall mode address raw reply,
  Forall (fun it => is_proto_member (impact it) = false) raw ->
  (mode = Deterministic \/ exists r, reply = JsonBody r /\ r <> RNonString) ->
  exists md, runAudit mode address raw reply = Ok md.
Proof.
  intros mode address raw reply Hf Hm.
  destruct raw as [| it0 r0]; [eexists; reflexivity |].
  assert (Hg : Forall (fun it => is_proto_member (impact it) = false)
                 (groupByCheckAndElement (it0 :: r0))).
  { rewrite groupByCheckAndElement_spec.
    apply (grouping_by_symbol_impacts (fun k => is_proto_member k = false)). exact Hf. }
  destruct (byImpact_spec _ Hg) as [b [Eb _]].
  assert (Hr : exists md, renderMarkdownDeterministic address
                            (groupByCheckAndElement (it0 :: r0)) = Some md)
    by (unfold renderMarkdownDeterministic; rewrite Eb; eexists; reflexivity).
  destruct Hr as [md Hmd].
  destruct mode.
  - exists md.
    change (runAudit Deterministic address (it0 :: r0) reply) with
      (of_render (renderMarkdownDeterministic address (groupByCheckAndElement (it0 :: r0)))).
    rewrite Hmd. reflexivity.
  - destruct Hm as [Hd | [r [-> Hr]]]; [discriminate Hd |].
    assert (E : runAudit Generator address (it0 :: r0) (JsonBody r) =
      (let md := match r with RString s => s | _ => "" end in
       if validateOrFallback md (groupByCheckAndElement (it0 :: r0)) then Ok md
       else of_render (renderMarkdownDeterministic address
                         (groupByCheckAndElement (it0 :: r0))))).
    { destruct r; [reflexivity | reflexivity | contradiction Hr; reflexivity]. }
    rewrite E. cbv zeta. match goal with |- context [if ?c then _ else _] => destruct c end;
      [eexists; reflexivity |].
    rewrite Hmd. eexists. reflexivity.
Qed.

Lemma runAudit_ok_without_prototype_impacts_witness :
  exists md, runAudit Generator "0xABC" [high_1; benign_low] (JsonBody RNullish) = Ok md.
Proof.
  apply runAudit_ok_without_prototype_impacts; [proto_free_solve |].
  right. exists RNullish. split; [reflexivity | discriminate].
Defined.

(* ------------------------------------------------------------------ *)
(** ** Further properties of the Fact Deriver and the Knowledge Enricher *)

Lemma lower_ascii_idem : forall c, lower_ascii (lower_ascii c) = lower_ascii c.
Proof. intros [[] [] [] [] [] [] [] []]; reflexivity. Qed.

Lemma toLowerCase_idem : forall s, toLowerCase (toLowerCase s) = toLowerCase s.
Proof.
  induction s as [| c r IH]; [reflexivity |]. cbn [toLowerCase].
  rewrite lower_ascii_idem, IH. reflexivity.
Qed.

Lemma toLowerCase_app : forall a b, toLowerCase (a ++ b) = toLowerCase a ++ toLowerCase b.
Proof.
  induction a as [| c r IH]; intros b; [reflexivity |]. cbn [toLowerCase append].
  rewrite IH. reflexivity.
Qed.

(** X17.  The description heuristics ignore ASCII letter case: lowercasing
    a description first changes neither the derived facts nor the SWC
    entry found from the description. *)
Theorem description_heuristics_case_insensitive : forall d,
  deriveFacts (Some (toLowerCase d)) = deriveFacts (Some d) /\
  forall (E : Type) (reg : string -> option E),
    enrichWithSWCByDescription E reg (Some (toLowerCase d)) =
    enrichWithSWCByDescription E reg (Some d).
Proof.
  intros d. split.
  - unfold deriveFacts. cbv beta iota zeta. rewrite toLowerCase_idem. reflexivity.
  - intros E reg. destruct d as [| c r]; [reflexivity |].
    unfold enrichWithSWCByDescription. cbn [toLowerCase].
    rewrite lower_ascii_idem, toLowerCase_idem. reflexivity.
Qed.

Lemma implb_includes : forall p x s sub,
  implb (includes x sub) (includes (p ++ x ++ s) sub) = true.
Proof.
  intros p x s sub. destruct (includes x sub) eqn:E; [| reflexivity].
  cbn [implb]. apply includes_app_r, includes_app_l. exact E.
Qed.

Lemma implb_includes2 : forall p x s a b,
  implb (includes x a || includes x b)
        (includes (p ++ x ++ s) a || includes (p ++ x ++ s) b) = true.
Proof.
  intros p x s a b.
  destruct (includes x a) eqn:Ea.
  - rewrite (includes_app_r p _ a (includes_app_l x s a Ea)). reflexivity.
  - destruct (includes x b) eqn:Eb; [| reflexivity].
    rewrite (includes_app_r p _ b (includes_app_l x s b Eb)), !orb_true_r. reflexivity.
Qed.

(** X18.  Text added around a description never clears a derived fact:
    every fact of [d] is also a fact of [p ++ d ++ s]. *)
Theorem deriveFacts_monotone : forall p d s,
  facts_le (deriveFacts (Some d)) (deriveFacts (Some (p ++ d ++ s))) = true.
Proof.
  intros p d s. unfold facts_le, deriveFacts. cbv beta iota zeta.
  cbn [writesAfterCall mentionsDelegatecall mentionsLowLevelCall exactStylePhrase
       mentionsZeroCheck].
  rewrite !toLowerCase_app, !implb_includes, !implb_includes2. reflexivity.
Qed.

(** X19.  The Knowledge Enricher only ever answers with the registry entry
    of one of five identifiers: SWC-112, SWC-107, SWC-104 (from the check
    table), SWC-101 or SWC-115 (from the description). *)
Theorem enrichWithSWC_known_ids : forall (E : Type) (reg : string -> option E) c d e,
  enrichWithSWC E reg c d = Some e ->
  exists id, In id ["SWC-112"; "SWC-107"; "SWC-104"; "SWC-101"; "SWC-115"] /\
             reg id = Some e.
Proof.
  intros E reg c d e H. unfold enrichWithSWC in H.
  destruct (String.eqb c "controlled-delegatecall");
    [exists "SWC-112"; split; [left; reflexivity | exact H] |].
  destruct (String.eqb c "reentrancy-no-eth" || String.eqb c "reentrancy-benign");
    [exists "SWC-107"; split; [right; left; reflexivity | exact H] |].
  destruct (String.eqb c "low-level-calls");
    [exists "SWC-104"; split; [right; right; left; reflexivity | exact H] |].
  destruct (String.eqb c "missing-zero-check"); [discriminate H |].
  unfold enrichWithSWCByDescription in H.
  destruct d as [[| ch r] |]; try discriminate H.
  destruct (_ || _);
    [exists "SWC-101"; split; [right; right; right; left; reflexivity | exact H] |].
  destruct (includes _ "tx.origin");
    [exists "SWC-115"; split; [right; right; right; right; left; reflexivity | exact H] |].
  discriminate H.
Qed.

Lemma enrichWithSWC_known_ids_witness :
  exists id, In id ["SWC-112"; "SWC-107"; "SWC-104"; "SWC-101"; "SWC-115"] /\
    (fun id => if String.eqb id "SWC-115" then Some 115%nat else None) id = Some 115%nat.
Proof.
  apply (enrichWithSWC_known_ids nat
           (fun id => if String.eqb id "SWC-115" then Some 115%nat else None)
           "tx-origin" (Some "Uses tx.origin for authorization")).
  vm_compute. reflexivity.
Defined.

(* ------------------------------------------------------------------ *)
(** ** The anchor pattern of the validator *)

Lemma prefix_drop : forall p s, prefix p s = true -> s = p ++ drop_prefix p s.
Proof.
  induction p as [| a p IH]; intros s H; [reflexivity |].
  destruct s as [| b s]; [discriminate H |].
  cbn [prefix] in H. cbn [drop_prefix append].
  destruct (ascii_dec a b) as [<- | _]; [f_equal; apply IH; exact H | discriminate H].
Qed.

Lemma close_on_line_split : forall r, close_on_line r = true ->
  exists y post, r = y ++ ")" ++ post /\ single_line y = true.
Proof.
  induction r as [| c r IH]; intros H; [discriminate H |].
  cbn [close_on_line] in H.
  destruct ((c =? ")")%char) eqn:Ec.
  - apply Ascii.eqb_eq in Ec. subst c. exists "", r. split; reflexivity.
  - destruct (is_term c) eqn:Et; [discriminate H |].
    destruct (IH H) as (y & post & -> & Hy).
    exists (String c y), post. split; [reflexivity |].
    cbn [single_line]. rewrite Et, Hy. reflexivity.
Qed.

Lemma close_on_line_intro : forall y post, single_line y = true ->
  close_on_line (y ++ ")" ++ post) = true.
Proof.
  induction y as [| c y IH]; intros post H; [reflexivity |].
  cbn [single_line] in H. apply andb_true_iff in H as [Hc Hy].
  apply negb_true_iff in Hc.
  cbn [append close_on_line]. destruct ((c =? ")")%char); [reflexivity |].
  rewrite Hc. apply IH. exact Hy.
Qed.

Lemma containsForbiddenAnchors_at : forall c y post, single_line (String c y) = true ->
  containsForbiddenAnchors ("](#" ++ String c y ++ ")" ++ post) = true.
Proof.
  intros c y post H. cbn [single_line] in H. apply andb_true_iff in H as [Hc Hy].
  change ("](#" ++ String c y ++ ")" ++ post)
    with (String "]" (String "(" (String "#" (String c (y ++ ")" ++ post))))).
  rewrite containsForbiddenAnchors_cons.
  change (prefix "](#" (String "]" (String "(" (String "#" (String c (y ++ ")" ++ post))))))
    with true.
  change (drop_prefix "](#" (String "]" (String "(" (String "#" (String c (y ++ ")" ++ post))))))
    with (String c (y ++ ")" ++ post)).
  cbn [anchor_tail]. rewrite Hc, (close_on_line_intro y post Hy). reflexivity.
Qed.

(** X20.  On ASCII text, [containsForbiddenAnchors md] holds exactly when
    [md] contains ["](#"], then a non-empty run of characters without a
    line terminator, then [")"]: the matches of [/\]\(#.+?\)/]. *)
Theorem containsForbiddenAnchors_spec : forall md, ascii_text md = true ->
  containsForbiddenAnchors md = true <->
  exists pre x post, md = pre ++ "](#" ++ x ++ ")" ++ post /\
                     x <> "" /\ single_line x = true.
Proof.
  intros md _. split.
  - induction md as [| c r IH]; intros H; [discriminate H |].
    rewrite containsForbiddenAnchors_cons in H.
    apply orb_true_iff in H as [H | H].
    + apply andb_true_iff in H as [Hp Ht].
      pose proof (prefix_drop _ _ Hp) as Hs.
      destruct (drop_prefix "](#" (String c r)) as [| c1 r1]; [discriminate Ht |].
      cbn [anchor_tail] in Ht. apply andb_true_iff in Ht as [Hc1 Hr1].
      destruct (close_on_line_split r1 Hr1) as (y & post & -> & Hy).
      exists "", (String c1 y), post. split; [| split].
      * rewrite Hs. reflexivity.
      * discriminate.
      * cbn [single_line]. rewrite Hc1, Hy. reflexivity.
    + destruct (IH H) as (pre & x & post & E & Hx & Hs).
      exists (String c pre), x, post. split; [rewrite E; reflexivity | split; assumption].
  - intros (pre & x & post & -> & Hx & Hs).
    destruct x as [| c y]; [contradiction Hx; reflexivity |].
    induction pre as [| c0 pre IH]; [apply containsForbiddenAnchors_at; exact Hs |].
    change (String c0 pre ++ "](#" ++ String c y ++ ")" ++ post)
      with (String c0 (pre ++ "](#" ++ String c y ++ ")" ++ post)).
    rewrite containsForbiddenAnchors_cons, IH, orb_true_r. reflexivity.
Qed.

Lemma containsForbiddenAnchors_spec_witness :
  containsForbiddenAnchors "See [setup](#install) first." = true.
Proof.
  apply (proj2 (containsForbiddenAnchors_spec "See [setup](#install) first." eq_refl)).
  exists "See [setup", "install", " first.". split; [reflexivity |].
  split; [discriminate | reflexivity].
Defined.

(* ------------------------------------------------------------------ *)
(** ** Order of the report's sections *)

Lemma body_line_not_top : forall l, body_line l = true -> is_top_heading l = false.
Proof.
  intros l H. unfold body_line in H. apply orb_true_iff in H as [H | H].
  - apply negb_true_iff in H. exact (prefix_hash_false l (String " " "") H).
  - destruct l as [| c r]; [discriminate H |]. cbn [prefix] in H.
    destruct (ascii_dec "#" c) as [<- | _]; [| discriminate H].
    destruct r as [| d r]; [discriminate H |]. cbn [prefix] in H.
    destruct (ascii_dec "#" d) as [<- | _]; [| discriminate H].
    reflexivity.
Qed.

Lemma top_headings_sections : forall (Bod : string -> list string) present,
  (forall s, In s present -> Forall (fun l => body_line l = true) (Bod s)) ->
  filter is_top_heading (concat (map (fun s => heading_text s :: "" :: Bod s) present))
  = map heading_text present.
Proof.
  intros Bod. induction present as [| s ps IH]; intros H; [reflexivity |].
  cbn [map concat app].
  cbn [filter].
  assert (Hh : is_top_heading (heading_text s) = true) by apply prefix_empty_l.
  rewrite Hh. change (is_top_heading "") with false. cbv iota.
  f_equal. rewrite filter_app, (filter_none _ _ (Bod s)), IH; [reflexivity | |].
  - intros s' Hs'. apply H. right. exact Hs'.
  - intros l Hl. apply body_line_not_top.
    exact (proj1 (Forall_forall _ _) (H s (or_introl eq_refl)) l Hl).
Qed.

(** X21.  When no finding's impact is an [Object.prototype] member name
    and no copied text starts a line with ["#"], the report's top-level
    headings are, in order, one per severity that has findings, following
    the fixed order High, Medium, Low, Informational. *)
Theorem render_heading_order : forall address items,
  Forall (fun it => is_proto_member (impact it) = false) items ->
  no_term_hash address = true ->
  Forall (fun it => issue_safe it = true) items ->
  exists md, renderMarkdownDeterministic address items = Some md /\
    filter is_top_heading (split_lines md) =
    map heading_text
      (filter (fun sev => negb (Nat.eqb (count_impact items sev) 0)) severities).
Proof.
  intros address items Hp Haddr Hsafe.
  destruct (byImpact_spec items Hp) as [b [Eb Hb]].
  unfold renderMarkdownDeterministic. rewrite Eb.
  eexists. split; [reflexivity |].
  assert (Hcount : forall s, length (bucket_of b s) = count_impact items s)
    by (intros s; rewrite Hb; reflexivity).
  assert (Hbsafe : forall s, Forall (fun it => issue_safe it = true) (bucket_of b s)).
  { intros s. rewrite Hb. apply Forall_forall. intros it Hit.
    apply filter_In in Hit as [Hit _]. exact (proj1 (Forall_forall _ _) Hsafe it Hit). }
  rewrite (filter_ext (fun sev => negb (Nat.eqb (count_impact items sev) 0))
                      (fun sev => negb (Nat.eqb (length (bucket_of b sev)) 0)))
    by (intros s; rewrite Hcount; reflexivity).
  unfold render_sections.
  remember (filter (fun s => negb (Nat.eqb (length (bucket_of b s)) 0)) severities)
    as present eqn:Ep.
  assert (Hmem : forall s, In s present <-> In s severities /\ length (bucket_of b s) <> 0).
  { intros s. rewrite Ep, filter_In, negb_true_iff, Nat.eqb_neq. reflexivity. }
  destruct present as [| p0 ps].
  - cbn [map join String.eqb].
    apply filter_none. intros l Hl.
    pose proof (proj1 (Forall_forall _ _)
                  (text_safe_lines _ (no_vulnerabilities_safe _ Haddr)) l Hl) as Hs.
    exact (prefix_hash_false l (String " " "") Hs).
  - set (Bod := fun s => concat (map (fun it => split_lines (renderOne it)) (bucket_of b s))).
    match goal with
    | |- context [join ?sep (map ?f (p0 :: ps))] => set (SEC := f)
    end.
    assert (Hlines : split_lines (join (String "010" "") (map SEC (p0 :: ps)))
                     = concat (map (fun s => heading_text s :: "" :: Bod s) (p0 :: ps))).
    { rewrite split_lines_join_map. f_equal. apply map_ext_in. intros s Hs.
      apply Hmem in Hs as [Hs Hn]. subst SEC. cbv beta.
      rewrite section_split by exact Hs. do 2 f_equal. subst Bod. cbv beta.
      destruct (bucket_of b s) as [| it0 r]; [destruct (Hn eq_refl) |].
      apply split_lines_join_map. }
    assert (Hne : String.eqb (join (String "010" "") (map SEC (p0 :: ps))) "" = false).
    { destruct (String.eqb_spec (join (String "010" "") (map SEC (p0 :: ps))) "")
        as [E | _]; [| reflexivity].
      rewrite E in Hlines. cbn [map concat app] in Hlines.
      injection Hlines as Hh _. unfold heading_text in Hh. discriminate Hh. }
    rewrite Hne, Hlines. apply top_headings_sections.
    intros s _. apply blocks_body. apply Hbsafe.
Qed.

Lemma render_heading_order_witness :
  exists md, renderMarkdownDeterministic "0xABC" [medium_1; high_1] = Some md /\
    filter is_top_heading (split_lines md) =
    [heading_text "High"; heading_text "Medium"].
Proof.
  destruct (render_heading_order "0xABC" [medium_1; high_1]) as [md [E H]].
  - proto_free_solve.
  - reflexivity.
  - apply Forall_forall. intros it Hit. cbn [In] in Hit.
    destruct Hit as [<- | [<- | []]]; vm_compute; reflexivity.
  - exists md. split; [exact E |]. rewrite H. vm_compute. reflexivity.
Defined.

(* ------------------------------------------------------------------ *)
(** ** Severity counts through the grouper *)

Lemma group_members_cons : forall it r s,
  group_members (it :: r) s =
  if eligible it && String.eqb (first_element (locations it)) s
  then it :: group_members r s else group_members r s.
Proof. reflexivity. Qed.

Lemma heads_first_members : forall items seen,
  map (fun s => hd_error (group_members items s))
      (first_seen seen (map (fun it => first_element (locations it)) (filter eligible items)))
  = map Some (first_members seen items).
Proof.
  induction items as [| it r IH]; intros seen; [reflexivity |].
  cbn [filter first_members]. destruct (eligible it) eqn:Ee.
  - cbn [map first_seen].
    destruct (existsb (String.eqb (first_element (locations it))) seen) eqn:Es.
    + rewrite <- IH. apply map_ext_in. intros s Hs.
      rewrite group_members_cons, Ee. cbn [andb].
      apply first_seen_In in Hs as [_ Hns].
      destruct (String.eqb_spec (first_element (locations it)) s) as [E | _];
        [| reflexivity].
      exfalso. apply Hns. rewrite <- E. apply existsb_eqb_In. exact Es.
    + cbn [map]. rewrite group_members_cons, Ee, String.eqb_refl. cbn [andb hd_error].
      f_equal. rewrite <- IH. apply map_ext_in. intros s Hs.
      rewrite group_members_cons, Ee. cbn [andb].
      apply first_seen_In in Hs as [_ Hns].
      destruct (String.eqb_spec (first_element (locations it)) s) as [E | _];
        [| reflexivity].
      exfalso. apply Hns. left. exact E.
  - rewrite <- IH. apply map_ext_in. intros s _.
    rewrite group_members_cons, Ee. reflexivity.
Qed.

Lemma count_flat_map_merge : forall items syms sev,
  length (filter (fun it => String.eqb (impact it) sev)
            (flat_map (fun s => merge_members (group_members items s)) syms)) =
  length (filter (fun o => match o with Some x => String.eqb (impact x) sev | None => false end)
            (map (fun s => hd_error (group_members items s)) syms)).
Proof.
  intros items syms sev. induction syms as [| s ss IH]; [reflexivity |].
  cbn [flat_map map]. rewrite filter_app, length_app, IH.
  unfold merge_members. destruct (group_members items s) as [| x r]; [reflexivity |].
  cbn [filter hd_error]. unfold with_locations. cbn [impact].
  destruct (String.eqb (impact x) sev); reflexivity.
Qed.

Lemma filter_map_some_impact : forall sev l,
  length (filter (fun o => match o with Some x => String.eqb (impact x) sev | None => false end)
            (map Some l)) =
  length (filter (fun it => String.eqb (impact it) sev) l).
Proof.
  intros sev. induction l as [| a r IH]; [reflexivity |]. cbn [map filter].
  destruct (String.eqb (impact a) sev); cbn [length]; rewrite IH; reflexivity.
Qed.

Lemma first_members_count : forall items seen sev,
  length (filter (fun it => String.eqb (impact it) sev)
            (filter (fun it => negb (eligible it)) items)) +
  length (filter (fun it => String.eqb (impact it) sev) (first_members seen items))
  <= length (filter (fun it => String.eqb (impact it) sev) items).
Proof.
  induction items as [| it r IH]; intros seen sev; [cbn; lia |].
  cbn [filter first_members]. destruct (eligible it) eqn:Ee; cbn [negb].
  - destruct (existsb (String.eqb (first_element (locations it))) seen).
    + specialize (IH seen sev).
      destruct (String.eqb (impact it) sev); cbn [length]; lia.
    + cbn [filter]. specialize (IH (first_element (locations it) :: seen) sev).
      destruct (String.eqb (impact it) sev); cbn [length]; lia.
  - cbn [filter]. specialize (IH seen sev).
    destruct (String.eqb (impact it) sev); cbn [length]; lia.
Qed.

(** X22.  Grouping never raises a severity's count: the grouped list has
    at most as many findings of each impact as the input. *)
Theorem group_count_impact_le : forall items sev,
  count_impact (groupByCheckAndElement items) sev <= count_impact items sev.
Proof.
  intros items sev. rewrite groupByCheckAndElement_spec.
  unfold count_impact, grouping_by_symbol.
  rewrite filter_app, length_app, count_flat_map_merge.
  unfold primary_symbols. rewrite heads_first_members, filter_map_some_impact.
  apply first_members_count.
Qed.


